(** * tools/compile_shaders.py: locating glslc and compiling a shader directory

    A shallow embedding of the script.  The interpreter, the operating system
    and the external compiler are modelled as far as the script observes them:
    - text is a [string] whose characters are the first 256 Unicode code
      points (Latin-1), on which [str.lower] is modelled exactly; names with
      other characters are outside the alphabet of this development;
    - a [pathlib] path is the list of its components ([parts]);
    - the file system is a finite map from paths to nodes, where a directory
      node carries its entries in the order the operating system yields them;
      nodes are regular files and directories, without permissions: checks
      and listings are reliable, as section 4.1 of the specification takes
      them to be;
    - a computation threads the file system, appends to an event log (console
      lines, directory creation, calls of [subprocess.run]) and may raise;
    - [shutil.which], [os.environ] and the compiler process are given by a
      [Host] record: the script treats them as opaque.  A launch may fail to
      start the program or to decode its error output. *)

From stdpp Require Import base option list gmap strings fin_maps.
From Stdlib Require Import ZArith Ascii.

(** ** Text *)

Module Text.

(** [c.lower()] on one character: the capitals [A]-[Z] (65-90) and
    [À]-[Þ] (192-222, without the sign [×], 215) move up by 32. *)
Definition lower_char (c : Ascii.ascii) : Ascii.ascii :=
  let n := Ascii.nat_of_ascii c in
  if (((65 <=? n) && (n <=? 90))
      || ((192 <=? n) && (n <=? 222) && negb (n =? 215)))%nat
  then Ascii.ascii_of_nat (n + 32) else c.

(** [s.lower()] *)
Fixpoint lower (s : string) : string :=
  match s with
  | EmptyString => EmptyString
  | String c s' => String (lower_char c) (lower s')
  end.

(** [s.rfind(c)]: the index of the last occurrence, [None] for Python's -1. *)
Fixpoint rfind (c : Ascii.ascii) (s : string) : option nat :=
  match s with
  | EmptyString => None
  | String a s' =>
      match rfind c s' with
      | Some i => Some (S i)
      | None => if Ascii.eqb a c then Some 0%nat else None
      end
  end.

(** [s.split(sep)] for a one-character separator. *)
Fixpoint split (sep : Ascii.ascii) (s : string) : list string :=
  match s with
  | EmptyString => [EmptyString]
  | String c s' =>
      if Ascii.eqb c sep then EmptyString :: split sep s'
      else match split sep s' with
           | [] => [String c EmptyString]
           | x :: xs => String c x :: xs
           end
  end.

(** [sep.join(l)] *)
Fixpoint join (sep : string) (l : list string) : string :=
  match l with
  | [] => ""
  | [x] => x
  | x :: l' => x +:+ sep +:+ join sep l'
  end.

(** Truth value of a string: [if s:]. *)
Definition truthy (s : string) : bool := negb (String.eqb s "").

(** [s.endswith(t)] *)
Definition endswith (s t : string) : bool :=
  let n := String.length s in
  let k := String.length t in
  ((k <=? n)%nat && String.eqb (String.substring (n - k) k s) t).

End Text.

(** ** pathlib (pure paths) *)

Module PurePath.

(** A path is the list of its components; a leading ["/"] stands for the
    root.  The empty list is the current directory. *)
Definition path := list string.

Definition is_segment (x : string) : bool :=
  negb (String.eqb x "") && negb (String.eqb x ".").

(** [Path(s)]: components are separated by ["/"], empty and ["."]
    components are dropped. *)
Definition Path (s : string) : path :=
  (if String.prefix "/" s then ["/"] else [])
    ++ List.filter is_segment (Text.split "/"%char s).

(** [str(p)] *)
Definition str (p : path) : string :=
  match p with
  | [] => "."
  | r :: rest =>
      if String.eqb r "/" then "/" +:+ Text.join "/" rest
      else Text.join "/" p
  end.

(** [p / n] for a single relative component [n] (a file name). *)
Definition joinpath (p : path) (n : string) : path := p ++ [n].

(** [p.name] *)
Definition name (p : path) : string := List.last p "".

(** [p.parent] *)
Definition parent (p : path) : path := List.removelast p.

(** The [suffix] of a file name: from the last dot on, provided that dot is
    neither the first nor the last character. *)
Definition suffix_of (nm : string) : string :=
  match Text.rfind "."%char nm with
  | Some i =>
      if ((0 <? i) && (i <? String.length nm - 1))%nat
      then String.substring i (String.length nm - i) nm
      else ""
  | None => ""
  end.

(** [p.suffix] *)
Definition suffix (p : path) : string := suffix_of (name p).

End PurePath.

Export PurePath.
Infix "//" := joinpath (at level 40, left associativity).

(** ** File system, events and exceptions *)

Inductive node :=
  | File
  | Dir (entries : list string).

Abbreviation FS := (gmap (list string) node).

Inductive exn :=
  | SystemExit (code : Z)
  | FileExistsError
  | FileNotFoundError
  | NotADirectoryError
  | PermissionError
  | OSError
  | UnicodeDecodeError.

(** What a run does that can be observed: a line on the console, a call of
    [mkdir], a call of [subprocess.run] (whether or not the program starts),
    and the traceback of an exception nobody caught. *)
Inductive event :=
  | Print (line : string)
  | Mkdir (p : path)
  | Run (cmd : list string)
  | Traceback (e : exn).

#[global] Instance exn_eq_dec : EqDecision exn.
Proof. solve_decision. Defined.
#[global] Instance node_eq_dec : EqDecision node.
Proof. solve_decision. Defined.
#[global] Instance event_eq_dec : EqDecision event.
Proof. solve_decision. Defined.

(** ** Computations *)

Record outcome (A : Type) := Outcome {
  res : exn + A;
  fs_after : FS;
  log : list event
}.
Arguments Outcome {A} _ _ _.
Arguments res {A} _.
Arguments fs_after {A} _.
Arguments log {A} _.

Definition M (A : Type) : Type := FS -> outcome A.

Definition ret {A} (a : A) : M A := fun fs => Outcome (inr a) fs [].

Definition raise {A} (e : exn) : M A := fun fs => Outcome (inl e) fs [].

Definition bind {A B} (m : M A) (k : A -> M B) : M B :=
  fun fs =>
    let o := m fs in
    match res o with
    | inl e => Outcome (inl e) (fs_after o) (log o)
    | inr a =>
        let o' := k a (fs_after o) in
        Outcome (res o') (fs_after o') (log o ++ log o')
    end.

#[global] Instance M_ret : MRet M := @ret.
#[global] Instance M_bind : MBind M := fun A B k m => bind m k.

(** [for x in l: body(x)] *)
Fixpoint for_each {A} (l : list A) (body : A -> M unit) : M unit :=
  match l with
  | [] => ret tt
  | x :: l' => body x ;; for_each l' body
  end.

(** ** The operating system as the script sees it *)

Module OS.

Definition print (s : string) : M unit :=
  fun fs => Outcome (inr tt) fs [Print s].

(** [sys.exit(code)] *)
Definition sys_exit {A} (code : Z) : M A := raise (SystemExit code).

(** [p.exists()].  The check is reliable: it answers, and never fails for
    lack of permission or for a name the system refuses. *)
Definition exists_ (p : path) : M bool :=
  fun fs => Outcome (inr (bool_decide (is_Some (fs !! p)))) fs [].

Definition is_dir_in (fs : FS) (p : path) : bool :=
  match fs !! p with
  | Some (Dir _) => true
  | _ => false
  end.

(** [os.listdir(p)]: fails on what is not a directory; a directory can
    always be read. *)
Definition listdir (fs : FS) (p : path) : exn + list string :=
  match fs !! p with
  | Some (Dir es) => inr es
  | Some File => inl NotADirectoryError
  | None => inl FileNotFoundError
  end.

(** [p.iterdir()], consumed at once by a [for] loop. *)
Definition iterdir (p : path) : M (list path) :=
  fun fs =>
    match listdir fs p with
    | inr es => Outcome (inr (List.map (joinpath p) es)) fs []
    | inl e => Outcome (inl e) fs []
    end.

(** [p.glob("*")]: every entry directly inside [p], hidden ones included;
    nothing when [p] is not a directory.  The entries are read when the
    loop starts. *)
Definition glob_star (p : path) : M (list path) :=
  fun fs =>
    match fs !! p with
    | Some (Dir es) => Outcome (inr (List.map (joinpath p) es)) fs []
    | _ => Outcome (inr []) fs []
    end.

(** [os.mkdir(p)]: fails when the name is taken or the parent is no
    directory; a parent directory can always be written to.  Where the new
    name shows up in the parent's listing is the file system's choice: it is
    put last here, and no property below depends on its place. *)
Definition os_mkdir (fs : FS) (p : path) : exn + FS :=
  match fs !! p with
  | Some _ => inl FileExistsError
  | None =>
      match fs !! parent p with
      | Some (Dir es) =>
          inr (<[p := Dir []]> (<[parent p := Dir (es ++ [name p])]> fs))
      | Some File => inl NotADirectoryError
      | None => inl FileNotFoundError
      end
  end.

(** [p.mkdir(exist_ok=...)] with [parents=False]: a missing parent is
    re-raised, any other error is swallowed only if [exist_ok] holds and
    [p] is a directory. *)
Definition mkdir (p : path) (exist_ok : bool) : M unit :=
  fun fs =>
    match os_mkdir fs p with
    | inr fs' => Outcome (inr tt) fs' [Mkdir p]
    | inl FileNotFoundError => Outcome (inl FileNotFoundError) fs [Mkdir p]
    | inl e =>
        if negb exist_ok || negb (is_dir_in fs p)
        then Outcome (inl e) fs [Mkdir p]
        else Outcome (inr tt) fs [Mkdir p]
    end.

End OS.

(** Why a program could not be started. *)
Inductive launch_error :=
  | CannotExecute   (* a directory, or a file without execute permission *)
  | NoSuchProgram   (* the file is gone *)
  | BadExecutable.  (* not a program the system can load *)

(** How a launch ends. *)
Inductive completed :=
  | Exited (returncode : Z) (stderr : string)
  | Undecodable      (* the program ran; its error output is not text *)
  | NotStarted (e : launch_error).

Definition exn_of_launch (e : launch_error) : exn :=
  match e with
  | CannotExecute => PermissionError
  | NoSuchProgram => FileNotFoundError
  | BadExecutable => OSError
  end.

(** What the script cannot see into. *)
Record Host := {
  (** [shutil.which] *)
  which : string -> option string;
  (** [os.environ] *)
  environ : gmap string string;
  (** The program started by [subprocess.run]: how the launch ends, and
      whatever the program does to the file system. *)
  process : list string -> FS -> completed * FS
}.

(** [subprocess.run(cmd, capture_output=True, text=True)]: returns the exit
    code and the decoded error output; raises when the program cannot be
    started (the file system is then as before) or its output cannot be
    decoded. *)
Definition subprocess_run (h : Host) (cmd : list string) : M (Z * string) :=
  fun fs =>
    match process h cmd fs with
    | (Exited returncode stderr, fs') =>
        Outcome (inr (returncode, stderr)) fs' [Run cmd]
    | (Undecodable, fs') => Outcome (inl UnicodeDecodeError) fs' [Run cmd]
    | (NotStarted e, _) => Outcome (inl (exn_of_launch e)) fs [Run cmd]
    end.

(** ** find_glslc *)

(** The loop of step 3: [for p in default_sdk_dir.iterdir(): ...], falling
    through to the final [return None]. *)
Fixpoint search_installs (ps : list path) : M (option path) :=
  match ps with
  | [] => mret None
  | p :: ps' =>
      let guess := p // "Bin" // "glslc.exe" in
      found ← OS.exists_ guess;
      if found : bool then mret (Some guess) else search_installs ps'
  end.

(** Each early [return] leaves the function; what follows a failed step is
    bound first ([step3], then [step2]) and the body starts at step 1. *)
Definition find_glslc (h : Host) : M (option path) :=
  (* 3. Search common Vulkan SDK install dir *)
  let step3 : M (option path) :=
    let default_sdk_dir := Path "C:/VulkanSDK" in
    present ← OS.exists_ default_sdk_dir;
    if present : bool then
      ps ← OS.iterdir default_sdk_dir;
      search_installs ps
    else mret None in
  (* 2. Check VULKAN_SDK environment variable *)
  let step2 : M (option path) :=
    match environ h !! "VULKAN_SDK" with
    | Some vulkan_sdk =>
        if Text.truthy vulkan_sdk then
          let guess := Path vulkan_sdk // "Bin" // "glslc.exe" in
          found ← OS.exists_ guess;
          if found : bool then mret (Some guess) else step3
        else step3
    | None => step3
    end in
  (* 1. Check PATH *)
  match which h "glslc.exe" with
  | Some glslc => if Text.truthy glslc then mret (Some (Path glslc)) else step2
  | None => step2
  end.

(** ** Main compile logic *)

Definition SHADER_DIR : string := "../shaders".
Definition OUT_DIR : string := "../shaders".

Definition compile_shader (h : Host) (glslc_path input_path output_path : path)
  : M unit :=
  let cmd := [str glslc_path; str input_path; "-o"; str output_path] in
  result ← subprocess_run h cmd;
  let '(returncode, stderr) := result in
  if negb (returncode =? 0)%Z then
    OS.print ("[FAILED] " +:+ str input_path);;
    OS.print stderr
  else
    OS.print ("[OK] " +:+ name input_path +:+ " -> " +:+ name output_path).

Definition shader_exts : list string :=
  [".vert"; ".frag"; ".comp"; ".geom"; ".tesc"; ".tese";
   ".mesh"; ".task"; ".rgen"; ".rchit"; ".rmiss"].

(** [shader.suffix.lower() in shader_exts] *)
Definition is_shader (shader : path) : bool :=
  bool_decide (Text.lower (suffix shader) ∈ shader_exts).

Definition main (h : Host) : M unit :=
  glslc ← find_glslc h;
  match glslc with
  | None =>
      OS.print "ERROR: Could not locate glslc.exe on this system.";;
      OS.print "Make sure the Vulkan SDK is installed or glslc is in PATH.";;
      OS.sys_exit 1
  | Some glslc =>
      OS.print ("Using glslc: " +:+ str glslc);;
      let shader_dir := Path SHADER_DIR in
      let output_dir := Path OUT_DIR in
      OS.mkdir output_dir true;;
      shaders ← OS.glob_star shader_dir;
      for_each shaders (fun shader =>
        if is_shader shader then
          let out := output_dir // (name shader +:+ ".spv") in
          compile_shader h glslc shader out
        else mret tt);;
      OS.print "Done."
  end.

(** ** Running the script as a process *)

Record finished := Finished {
  exit_status : Z;
  trace : list event;
  final_fs : FS
}.

(** [python compile_shaders.py]: a normal return exits with 0, [sys.exit(n)]
    with [n], any other exception prints a traceback and exits with 1. *)
Definition run_script (h : Host) (fs : FS) : finished :=
  let o := main h fs in
  match res o with
  | inr _ => Finished 0 (log o) (fs_after o)
  | inl (SystemExit code) => Finished code (log o) (fs_after o)
  | inl e => Finished 1 (log o ++ [Traceback e]) (fs_after o)
  end.

(** The command lines of the subprocesses a trace launched, in order. *)
Definition invocations (t : list event) : list (list string) :=
  omap (fun e => match e with Run cmd => Some cmd | _ => None end) t.

Definition mkdirs (t : list event) : list path :=
  omap (fun e => match e with Mkdir p => Some p | _ => None end) t.

Definition printed (t : list event) : list string :=
  omap (fun e => match e with Print s => Some s | _ => None end) t.

(** ** Vocabulary of the specification *)

(** The three search methods of the locator, each taken alone.  An empty
    string counts as no answer and an empty variable as unset, as
    [if glslc:] and [if vulkan_sdk:] have it. *)
Module Locator.

Definition default_root : path := Path "C:/VulkanSDK".

(** The candidate below an installation directory. *)
Definition candidate (d : path) : path := d // "Bin" // "glslc.exe".

(** (1) the executable search path *)
Definition by_search_path (h : Host) : option path :=
  s ← which h "glslc.exe";
  if Text.truthy s then Some (Path s) else None.

(** (2) [VULKAN_SDK] joined with [Bin/glslc.exe], if that exists *)
Definition by_sdk_variable (h : Host) (fs : FS) : option path :=
  v ← environ h !! "VULKAN_SDK";
  if Text.truthy v && bool_decide (is_Some (fs !! candidate (Path v)))
  then Some (candidate (Path v)) else None.

(** (3) the first entry of the default installation root below which
    [Bin/glslc.exe] exists; nothing when the root is no directory *)
Definition by_default_root (fs : FS) : option path :=
  match fs !! default_root with
  | Some (Dir es) =>
      List.find (fun c => bool_decide (is_Some (fs !! c)))
                (List.map (fun e => candidate (default_root // e)) es)
  | _ => None
  end.

(** First hit wins. *)
Fixpoint first_hit (methods : list (option path)) : option path :=
  match methods with
  | [] => None
  | Some p :: _ => Some p
  | None :: rest => first_hit rest
  end.

Definition locate (h : Host) (fs : FS) : option path :=
  first_hit [by_search_path h; by_sdk_variable h fs; by_default_root fs].

End Locator.

(** A computation that only looks at the file system. *)
Definition pure_at {A} (m : M A) (fs : FS) : Prop :=
  fs_after (m fs) = fs ∧ log (m fs) = [].

(** What step 3 of the locator does when steps 1 and 2 have no hit:
    listing a root that is a regular file raises. *)
Definition default_root_outcome (fs : FS) : exn + option path :=
  match fs !! Locator.default_root with
  | Some (Dir _) => inr (Locator.by_default_root fs)
  | Some File => inl NotADirectoryError
  | None => inr None
  end.

(** The names directly inside the input directory, in listing order. *)
Definition entries (fs : FS) : list string :=
  match fs !! Path SHADER_DIR with
  | Some (Dir es) => es
  | _ => []
  end.

Definition listing (fs : FS) : list path :=
  List.map (joinpath (Path SHADER_DIR)) (entries fs).

(** The command line the specification prescribes for one input. *)
Definition command (glslc shader : path) : list string :=
  [str glslc; str shader; "-o";
   str (Path OUT_DIR // (name shader +:+ ".spv"))].

Definition ok_line (shader : path) : string :=
  "[OK] " +:+ name shader +:+ " -> " +:+ (name shader +:+ ".spv").

Definition failed_line (shader : path) : string :=
  "[FAILED] " +:+ str shader.

Definition not_found_lines : list event :=
  [Print "ERROR: Could not locate glslc.exe on this system.";
   Print "Make sure the Vulkan SDK is installed or glslc is in PATH."].

(** The console report of a batch over [shaders] started in [fs], every
    launch of which returns: nothing for an entry that is no shader;
    otherwise one launch followed by the [OK] line when the compiler exits
    with 0, and by the [FAILED] line and the captured error text when it
    does not.  The last index is the file system the batch leaves behind. *)
Inductive reports (h : Host) (glslc : path)
  : list path -> FS -> list event -> FS -> Prop :=
  | reports_nil fs :
      reports h glslc [] fs [] fs
  | reports_skip shader rest fs t fs' :
      is_shader shader = false ->
      reports h glslc rest fs t fs' ->
      reports h glslc (shader :: rest) fs t fs'
  | reports_ok shader rest fs err fs1 t fs' :
      is_shader shader = true ->
      process h (command glslc shader) fs = (Exited 0 err, fs1) ->
      reports h glslc rest fs1 t fs' ->
      reports h glslc (shader :: rest) fs
        (Run (command glslc shader) :: Print (ok_line shader) :: t) fs'
  | reports_failed shader rest fs rc err fs1 t fs' :
      is_shader shader = true ->
      process h (command glslc shader) fs = (Exited rc err, fs1) ->
      rc ≠ 0%Z ->
      reports h glslc rest fs1 t fs' ->
      reports h glslc (shader :: rest) fs
        (Run (command glslc shader) :: Print (failed_line shader)
           :: Print err :: t) fs'.

(** An extension: one dot, in front, and something after it. *)
Definition is_extension (x : string) : Prop :=
  Text.rfind "."%char x = Some 0 ∧ 2 ≤ String.length x.

(** The body of the loop in [main], under a name of its own. *)
Definition loop_body (h : Host) (glslc shader : path) : M unit :=
  if is_shader shader then
    let out := Path OUT_DIR // (name shader +:+ ".spv") in
    compile_shader h glslc shader out
  else mret tt.




(** What a batch may leave in the log: calls of the compiler on selected
    entries, and console lines. *)
Definition batch_event (glslc : path) (shaders : list path) (ev : event)
  : Prop :=
  match ev with
  | Run cmd =>
      ∃ shader, shader ∈ shaders ∧ is_shader shader = true
                ∧ cmd = command glslc shader
  | Print _ => True
  | _ => False
  end.

(** The compiler honours its command-line contract: whatever it is asked, it
    starts, runs to its exit and writes diagnostics that are text. *)
Definition compiler_answers (h : Host) : Prop :=
  ∀ cmd fs, ∃ rc err, (process h cmd fs).1 = Exited rc err.

(** A compiler that never removes the output directory. *)
Definition keeps_output_dir (h : Host) : Prop :=
  ∀ cmd fs, OS.is_dir_in fs (Path OUT_DIR) = true ->
            OS.is_dir_in (process h cmd fs).2 (Path OUT_DIR) = true.

(** ** Readings of the specification that the program does not meet *)

(** Whenever no search method has a hit, the locator returns [None] and the
    program prints the diagnostic and exits with 1, having done nothing
    else. *)
Definition not_found_is_reported (h : Host) (fs : FS) : Prop :=
  Locator.locate h fs = None ->
  res (find_glslc h fs) = inr None
  ∧ run_script h fs = Finished 1 not_found_lines fs.

(** Whenever the locator succeeds, the program exits with 0. *)
Definition found_means_exit_0 (h : Host) (fs : FS) : Prop :=
  ∀ glslc, res (find_glslc h fs) = inr (Some glslc) ->
           exit_status (run_script h fs) = 0%Z.

(** The [FAILED] line names the input by its file name, as the [OK] line
    does. *)
Definition failed_line_has_name (h : Host) (glslc input output : path)
    (fs : FS) : Prop :=
  ∀ rc err fs',
    process h [str glslc; str input; "-o"; str output] fs
    = (Exited rc err, fs') ->
    rc ≠ 0%Z ->
    log (compile_shader h glslc input output fs) =
      [Run [str glslc; str input; "-o"; str output];
       Print ("[FAILED] " +:+ name input); Print err].

(** A compiler that leaves the file system as it finds it. *)
Definition inert (h : Host) : Prop :=
  ∀ cmd fs, (process h cmd fs).2 = fs.

(** The host with [VULKAN_SDK] removed from the environment. *)
Definition without_sdk_variable (h : Host) : Host :=
  {| which := which h;
     environ := delete "VULKAN_SDK" (environ h);
     process := process h |}.

(** ** Sample hosts and file systems *)

Module Samples.

(** A compiler that rejects fragment shaders and touches nothing. *)
Definition picky (cmd : list string) (fs : FS) : completed * FS :=
  match cmd with
  | _ :: input :: _ =>
      if Text.endswith input ".frag" then (Exited 1 "b.frag: error", fs)
      else (Exited 0 "", fs)
  | _ => (Exited 2 "usage", fs)
  end.

(** glslc is on the search path. *)
Definition on_path : Host :=
  {| which := fun _ => Some "C:/tools/glslc.exe";
     environ := {[ "VULKAN_SDK" := "D:/sdk" ]};
     process := picky |}.

(** Nothing on the search path, no [VULKAN_SDK]. *)
Definition bare : Host :=
  {| which := fun _ => None; environ := ∅; process := picky |}.

Definition shaders_fs (es : list string) : FS :=
  {[ [".."] := Dir ["shaders"]; [".."; "shaders"] := Dir es ]}.

(** Every search method has a hit here. *)
Definition crowded_fs : FS :=
  {[ ["D:"; "sdk"; "Bin"; "glslc.exe"] := File;
     ["C:"; "VulkanSDK"] := Dir ["1.3.0"];
     ["C:"; "VulkanSDK"; "1.3.0"; "Bin"; "glslc.exe"] := File ]}.

(** The default installation root is a regular file. *)
Definition root_is_file : FS := {[ ["C:"; "VulkanSDK"] := File ]}.

(** The output directory name is taken by a regular file. *)
Definition shaders_is_file : FS :=
  {[ [".."] := Dir ["shaders"]; [".."; "shaders"] := File ]}.

(** Two installed SDK versions and a stray file; only the newer one ships
    the compiler. *)
Definition two_installs : FS :=
  {[ ["C:"; "VulkanSDK"] := Dir ["notes.txt"; "1.2.0"; "1.3.0"];
     ["C:"; "VulkanSDK"; "notes.txt"] := File;
     ["C:"; "VulkanSDK"; "1.2.0"] := Dir [];
     ["C:"; "VulkanSDK"; "1.3.0"] := Dir ["Bin"];
     ["C:"; "VulkanSDK"; "1.3.0"; "Bin"] := Dir ["glslc.exe"];
     ["C:"; "VulkanSDK"; "1.3.0"; "Bin"; "glslc.exe"] := File ]}.

(** [VULKAN_SDK] names an installation whose [glslc.exe] is a directory:
    it exists, and cannot be executed. *)
Definition glslc_is_dir : Host :=
  {| which := fun _ => None;
     environ := {[ "VULKAN_SDK" := "D:/sdk" ]};
     process := fun _ fs => (NotStarted CannotExecute, fs) |}.

Definition glslc_is_dir_fs (es : list string) : FS :=
  {[ ["D:"; "sdk"; "Bin"; "glslc.exe"] := Dir [];
     [".."] := Dir ["shaders"];
     [".."; "shaders"] := Dir es ]}.

(** [VULKAN_SDK] is set to the empty string. *)
Definition empty_variable : Host :=
  {| which := fun _ => None;
     environ := {[ "VULKAN_SDK" := "" ]};
     process := picky |}.

End Samples.

(** * Properties *)

(** ** Computations *)

Section Computations.
Context {A B : Type}.

Lemma bind_raises (m : M A) (k : A -> M B) fs e :
  res (m fs) = inl e ->
  (m ≫= k) fs = Outcome (inl e) (fs_after (m fs)) (log (m fs)).
Proof. intros E. unfold mbind, M_bind, bind. simpl. by rewrite E. Qed.

Lemma bind_returns (m : M A) (k : A -> M B) fs a :
  res (m fs) = inr a ->
  (m ≫= k) fs =
    Outcome (res (k a (fs_after (m fs))))
            (fs_after (k a (fs_after (m fs))))
            (log (m fs) ++ log (k a (fs_after (m fs)))).
Proof. intros E. unfold mbind, M_bind, bind. simpl. by rewrite E. Qed.

Lemma pure_bind (m : M A) (k : A -> M B) fs :
  pure_at m fs -> (∀ a, pure_at (k a) fs) -> pure_at (m ≫= k) fs.
Proof.
  intros [Hf Hl] Hk. unfold pure_at.
  destruct (res (m fs)) as [e|a] eqn:E.
  - rewrite (bind_raises _ _ _ _ E). simpl. done.
  - rewrite (bind_returns _ _ _ _ E). simpl. rewrite Hf, Hl.
    destruct (Hk a) as [-> ->]. done.
Qed.

Lemma bind_pure (m : M A) (k : A -> M B) fs a :
  m fs = Outcome (inr a) fs [] -> (m ≫= k) fs = k a fs.
Proof.
  intros E. unfold mbind, M_bind, bind. simpl. rewrite E. simpl.
  by destruct (k a fs).
Qed.

Lemma pure_ret (a : A) fs : pure_at (mret a) fs.
Proof. done. Qed.

End Computations.

Lemma pure_exists p fs : pure_at (OS.exists_ p) fs.
Proof. done. Qed.

Lemma pure_iterdir p fs : pure_at (OS.iterdir p) fs.
Proof. unfold pure_at, OS.iterdir. by destruct (OS.listdir fs p). Qed.

(** ** The locator *)

Lemma search_installs_pure ps fs : pure_at (search_installs ps) fs.
Proof.
  induction ps as [|p ps IH]; simpl; [done|].
  apply pure_bind; [done|]. by intros [].
Qed.

Ltac pure_step :=
  first
    [ apply pure_ret | apply pure_exists | apply pure_iterdir
    | apply search_installs_pure | apply pure_bind
    | match goal with
      | |- pure_at (match ?x with _ => _ end) _ => destruct x
      | |- ∀ _, _ => intro
      end ].

(** The locator has no side effects. *)
Lemma find_glslc_pure h fs : pure_at (find_glslc h) fs.
Proof. unfold find_glslc. cbv zeta. repeat pure_step. Qed.

Lemma search_installs_res ps fs :
  res (search_installs ps fs) =
    inr (List.find (fun c => bool_decide (is_Some (fs !! c)))
                   (List.map Locator.candidate ps)).
Proof.
  induction ps as [|p ps IH]; simpl; [done|].
  unfold Locator.candidate.
  by destruct (bool_decide (is_Some (fs !! (p // "Bin" // "glslc.exe")))).
Qed.

Lemma step3_res fs :
  res ((present ← OS.exists_ (Path "C:/VulkanSDK");
        if present : bool
        then ps ← OS.iterdir (Path "C:/VulkanSDK"); search_installs ps
        else mret None) fs) = default_root_outcome fs.
Proof.
  rewrite (bind_pure (OS.exists_ _) _ fs _ eq_refl).
  unfold default_root_outcome, Locator.by_default_root.
  change (Path "C:/VulkanSDK") with Locator.default_root.
  destruct (fs !! Locator.default_root) as [[|es]|] eqn:E.
  - rewrite bool_decide_eq_true_2 by eauto.
    unfold mbind, M_bind, bind, OS.iterdir, OS.listdir. by rewrite E.
  - rewrite bool_decide_eq_true_2 by eauto.
    unfold mbind, M_bind, bind, OS.iterdir, OS.listdir. rewrite E. simpl.
    rewrite search_installs_res. by rewrite List.map_map.
  - rewrite bool_decide_eq_false_2; [done|]. by intros [? ?].
Qed.

(** The result of the locator, by cases on the three methods. *)
Lemma find_glslc_res h fs :
  res (find_glslc h fs) =
    match Locator.by_search_path h with
    | Some p => inr (Some p)
    | None =>
        match Locator.by_sdk_variable h fs with
        | Some p => inr (Some p)
        | None => default_root_outcome fs
        end
    end.
Proof.
  unfold find_glslc, Locator.by_search_path, Locator.by_sdk_variable.
  cbv zeta.
  assert (∀ o : option string,
    res (match o with
         | Some vulkan_sdk =>
             if Text.truthy vulkan_sdk
             then found ← OS.exists_ (Path vulkan_sdk // "Bin" // "glslc.exe");
                  if found : bool
                  then mret (Some (Path vulkan_sdk // "Bin" // "glslc.exe"))
                  else (present ← OS.exists_ (Path "C:/VulkanSDK");
                        if present : bool
                        then ps ← OS.iterdir (Path "C:/VulkanSDK");
                             search_installs ps
                        else mret None)
             else (present ← OS.exists_ (Path "C:/VulkanSDK");
                   if present : bool
                   then ps ← OS.iterdir (Path "C:/VulkanSDK");
                        search_installs ps
                   else mret None)
         | None => (present ← OS.exists_ (Path "C:/VulkanSDK");
                    if present : bool
                    then ps ← OS.iterdir (Path "C:/VulkanSDK");
                         search_installs ps
                    else mret None)
         end fs) =
    match (v ← o;
           if Text.truthy v
              && bool_decide (is_Some (fs !! Locator.candidate (Path v)))
           then Some (Locator.candidate (Path v)) else None) with
    | Some p => inr (Some p)
    | None => default_root_outcome fs
    end) as H2.
  { intros [v|]; simpl; [|apply step3_res].
    destruct (Text.truthy v); simpl; [|apply step3_res].
    unfold Locator.candidate.
    destruct (bool_decide (is_Some (fs !! (Path v // "Bin" // "glslc.exe"))));
      [done|apply step3_res]. }
  destruct (which h "glslc.exe") as [s|]; simpl; [|apply H2].
  destruct (Text.truthy s); [done|apply H2].
Qed.

(** The locator never ends the program by itself. *)
Lemma find_glslc_run h fs :
  find_glslc h fs = Outcome (res (find_glslc h fs)) fs [].
Proof.
  destruct (find_glslc_pure h fs) as [Hf Hl].
  destruct (find_glslc h fs) as [r f l]. simpl in *. by subst.
Qed.

(** C1. The locator tries the search path, then [VULKAN_SDK], then the
    entries of the default installation root, and returns the hit of the
    first method that has one; a hit of a later method is never returned
    in its place.  It changes nothing and prints nothing. *)
Theorem find_glslc_first_hit (h : Host) (fs : FS) (p : path) :
  Locator.locate h fs = Some p ->
  find_glslc h fs = Outcome (inr (Some p)) fs [].
Proof.
  intros Hp. rewrite find_glslc_run, find_glslc_res.
  unfold Locator.locate in Hp. simpl in Hp.
  destruct (Locator.by_search_path h) as [p1|]; [by simplify_eq|].
  destruct (Locator.by_sdk_variable h fs) as [p2|]; [by simplify_eq|].
  unfold default_root_outcome.
  destruct (Locator.by_default_root fs) as [p3|] eqn:E3; [|done].
  simplify_eq. unfold Locator.by_default_root in E3.
  by destruct (fs !! Locator.default_root) as [[|es]|].
Qed.

(** All three methods have a hit; the one of the search path is returned. *)
Lemma find_glslc_first_hit_witness :
  Locator.by_search_path Samples.on_path = Some ["C:"; "tools"; "glslc.exe"]
  ∧ Locator.by_sdk_variable Samples.on_path Samples.crowded_fs
    = Some ["D:"; "sdk"; "Bin"; "glslc.exe"]
  ∧ Locator.by_default_root Samples.crowded_fs
    = Some ["C:"; "VulkanSDK"; "1.3.0"; "Bin"; "glslc.exe"]
  ∧ find_glslc Samples.on_path Samples.crowded_fs
    = Outcome (inr (Some ["C:"; "tools"; "glslc.exe"])) Samples.crowded_fs [].
Proof.
  split; [vm_compute; reflexivity|].
  split; [vm_compute; reflexivity|].
  split; [vm_compute; reflexivity|].
  apply (find_glslc_first_hit Samples.on_path Samples.crowded_fs).
  vm_compute; reflexivity.
Defined.

(** ** Creating the output directory *)

Lemma mkdir_cases p fs :
  (OS.is_dir_in fs p = true
   ∧ OS.mkdir p true fs = Outcome (inr tt) fs [Mkdir p])
  ∨ (fs !! p = None
     ∧ ∃ es, fs !! parent p = Some (Dir es)
        ∧ OS.mkdir p true fs =
            Outcome (inr tt)
              (<[p := Dir []]> (<[parent p := Dir (es ++ [name p])]> fs))
              [Mkdir p])
  ∨ (OS.is_dir_in fs p = false
     ∧ ∃ e, (∀ code, e ≠ SystemExit code)
        ∧ OS.mkdir p true fs = Outcome (inl e) fs [Mkdir p]).
Proof.
  unfold OS.mkdir, OS.os_mkdir, OS.is_dir_in.
  destruct (fs !! p) as [[|es]|] eqn:E; simpl.
  - right; right. split; [done|]. by exists FileExistsError.
  - left. done.
  - destruct (fs !! parent p) as [[|es]|] eqn:E'; simpl.
    + right; right. split; [done|]. by exists NotADirectoryError.
    + right; left. eauto.
    + right; right. split; [done|]. by exists FileNotFoundError.
Qed.

Lemma mkdir_log p ok fs : log (OS.mkdir p ok fs) = [Mkdir p].
Proof.
  unfold OS.mkdir. destruct (OS.os_mkdir fs p) as [[]|]; simpl; try done;
    by destruct (negb ok || negb (OS.is_dir_in fs p)).
Qed.

(** An existing directory is left as it is. *)
Lemma mkdir_existing p fs :
  OS.is_dir_in fs p = true ->
  OS.mkdir p true fs = Outcome (inr tt) fs [Mkdir p].
Proof.
  intros H. destruct (mkdir_cases p fs) as [[_ ?]|[[E _]|[E _]]]; [done| |].
  - unfold OS.is_dir_in in H. by rewrite E in H.
  - congruence.
Qed.

(** After a successful creation the directory is there. *)
Lemma mkdir_makes_dir p fs fs1 l :
  OS.mkdir p true fs = Outcome (inr tt) fs1 l -> OS.is_dir_in fs1 p = true.
Proof.
  intros H.
  destruct (mkdir_cases p fs) as [[D E]|[[_ (es & _ & E)]|[_ (e & _ & E)]]];
    rewrite E in H; simplify_eq; [done|].
  unfold OS.is_dir_in. by rewrite lookup_insert_eq.
Qed.

(** ** One compilation *)

Lemma compile_shader_run h glslc input output fs :
  compile_shader h glslc input output fs =
    let cmd := [str glslc; str input; "-o"; str output] in
    match process h cmd fs with
    | (Exited rc err, fs1) =>
        Outcome (inr tt) fs1
          (Run cmd ::
             if (rc =? 0)%Z
             then [Print ("[OK] " +:+ name input +:+ " -> " +:+ name output)]
             else [Print ("[FAILED] " +:+ str input); Print err])
    | (Undecodable, fs1) => Outcome (inl UnicodeDecodeError) fs1 [Run cmd]
    | (NotStarted e, _) => Outcome (inl (exn_of_launch e)) fs [Run cmd]
    end.
Proof.
  unfold compile_shader, subprocess_run, mbind, M_bind, bind. simpl.
  destruct (process h [str glslc; str input; "-o"; str output] fs)
    as [[rc err| |e] fs1]; simpl; [|done..].
  by destruct (rc =? 0)%Z.
Qed.

(** ** The batch *)

Lemma name_joinpath p n : name (p // n) = n.
Proof. unfold name, joinpath. apply last_last. Qed.

Section Batch.
Variables (h : Host) (glslc : path).

Lemma loop_body_skip shader fs :
  is_shader shader = false ->
  loop_body h glslc shader fs = Outcome (inr tt) fs [].
Proof. unfold loop_body. by intros ->. Qed.

Lemma loop_body_compile shader fs :
  is_shader shader = true ->
  loop_body h glslc shader fs =
    match process h (command glslc shader) fs with
    | (Exited rc err, fs1) =>
        Outcome (inr tt) fs1
          (Run (command glslc shader) ::
             if (rc =? 0)%Z then [Print (ok_line shader)]
             else [Print (failed_line shader); Print err])
    | (Undecodable, fs1) =>
        Outcome (inl UnicodeDecodeError) fs1 [Run (command glslc shader)]
    | (NotStarted e, _) =>
        Outcome (inl (exn_of_launch e)) fs [Run (command glslc shader)]
    end.
Proof.
  unfold loop_body. intros ->. rewrite compile_shader_run.
  unfold command, ok_line, failed_line. by rewrite name_joinpath.
Qed.

(** One turn of the loop: it logs batch events only, and if it raises, the
    exception is none that ends the program with a status of its own. *)
Lemma loop_body_sound shader fs :
  Forall (batch_event glslc [shader]) (log (loop_body h glslc shader fs))
  ∧ ∀ e, res (loop_body h glslc shader fs) = inl e ->
         ∀ code, e ≠ SystemExit code.
Proof.
  destruct (is_shader shader) eqn:S.
  - rewrite (loop_body_compile shader fs S).
    assert (batch_event glslc [shader] (Run (command glslc shader))) as Hr.
    { exists shader. split_and!; [apply list_elem_of_here|done..]. }
    destruct (process h (command glslc shader) fs) as [[rc err| |e] fs1];
      simpl.
    + split; [|done]. destruct (rc =? 0)%Z; repeat constructor; done.
    + split; [by repeat constructor|]. by intros e [= <-].
    + split; [by repeat constructor|]. intros e' [= <-]. by destruct e.
  - rewrite (loop_body_skip shader fs S). simpl. split; [constructor|done].
Qed.

Lemma batch_event_mono shaders shaders' ev :
  (∀ s, s ∈ shaders -> s ∈ shaders') ->
  batch_event glslc shaders ev -> batch_event glslc shaders' ev.
Proof.
  intros Hsub. destruct ev as [| |cmd|]; simpl; try done.
  intros (s & Hin & Hs). exists s. split; [by apply Hsub|done].
Qed.

(** The loop, whether it runs to its end or not. *)
Lemma for_each_sound shaders fs :
  Forall (batch_event glslc shaders)
         (log (for_each shaders (loop_body h glslc) fs))
  ∧ ∀ e, res (for_each shaders (loop_body h glslc) fs) = inl e ->
         ∀ code, e ≠ SystemExit code.
Proof.
  revert fs. induction shaders as [|shader rest IH]; intros fs.
  - simpl. split; [constructor|done].
  - destruct (loop_body_sound shader fs) as [Hl He].
    assert (Forall (batch_event glslc (shader :: rest))
              (log (loop_body h glslc shader fs))) as Hl'.
    { eapply Forall_impl; [exact Hl|]. intros ev. apply batch_event_mono.
      intros s Hs. apply list_elem_of_singleton in Hs as ->.
      apply list_elem_of_here. }
    simpl. destruct (res (loop_body h glslc shader fs)) as [e|[]] eqn:R.
    + rewrite (bind_raises _ _ _ _ R). simpl. split; [done|].
      intros e' [= <-]. by apply He.
    + rewrite (bind_returns _ _ _ _ R). simpl.
      destruct (IH (fs_after (loop_body h glslc shader fs))) as [Hl2 He2].
      split; [|done]. apply Forall_app. split; [done|].
      eapply Forall_impl; [exact Hl2|]. intros ev. apply batch_event_mono.
      intros s Hs. by apply list_elem_of_further.
Qed.

(** With nothing to compile the loop does nothing. *)
Lemma for_each_nothing shaders fs :
  filter (λ s, is_shader s) shaders = [] ->
  for_each shaders (loop_body h glslc) fs = Outcome (inr tt) fs [].
Proof.
  induction shaders as [|shader rest IH]; intros F; [done|].
  destruct (is_shader shader) eqn:S.
  - rewrite filter_cons_True in F; [done|]. by rewrite S.
  - rewrite filter_cons_False in F by (rewrite S; by intros []).
    simpl. rewrite (bind_pure _ _ _ _ (loop_body_skip shader fs S)).
    by apply IH.
Qed.

(** With a compiler that answers, the loop runs to its end whatever the
    exit codes are, and its console output is the report of the batch. *)
Lemma for_each_reports shaders fs :
  compiler_answers h ->
  ∃ t fs',
    for_each shaders (loop_body h glslc) fs = Outcome (inr tt) fs' t
    ∧ reports h glslc shaders fs t fs'.
Proof.
  intros A. revert fs. induction shaders as [|shader rest IH]; intros fs.
  - exists [], fs. split; [done|constructor].
  - simpl. destruct (is_shader shader) eqn:S.
    + pose proof (loop_body_compile shader fs S) as Hb.
      destruct (A (command glslc shader) fs) as (rc & err & HA).
      destruct (process h (command glslc shader) fs) as [c fs1] eqn:P.
      simpl in HA. subst c.
      destruct (IH fs1) as (t & fs' & Hl & Hr).
      assert (res (loop_body h glslc shader fs) = inr tt) as R
        by by rewrite Hb.
      rewrite (bind_returns _ _ _ _ R), Hb. simpl. rewrite Hl. simpl.
      destruct (rc =? 0)%Z eqn:Z.
      * apply Z.eqb_eq in Z as ->. eexists _, fs'. split; [done|].
        by eapply reports_ok.
      * apply Z.eqb_neq in Z. eexists _, fs'. split; [done|].
        by eapply reports_failed.
    + destruct (IH fs) as (t & fs' & Hl & Hr).
      rewrite (bind_pure _ _ _ _ (loop_body_skip shader fs S)).
      exists t, fs'. split; [done|]. by apply reports_skip.
Qed.

End Batch.

(** ** The whole program *)

Lemma glob_star_run fs :
  OS.glob_star (Path SHADER_DIR) fs = Outcome (inr (listing fs)) fs [].
Proof.
  unfold OS.glob_star, listing, entries.
  by destruct (fs !! Path SHADER_DIR) as [[|es]|].
Qed.

(** Without a compiler: the two diagnostic lines, then [sys.exit(1)]. *)
Lemma main_not_found h fs :
  res (find_glslc h fs) = inr None ->
  main h fs = Outcome (inl (SystemExit 1)) fs not_found_lines.
Proof.
  intros R. unfold main.
  rewrite (bind_pure (find_glslc h) _ fs None);
    [done | by rewrite find_glslc_run, R].
Qed.

(** The locator raised: nothing else happens. *)
Lemma main_locator_raises h fs e :
  res (find_glslc h fs) = inl e -> main h fs = Outcome (inl e) fs [].
Proof.
  intros R. unfold main. rewrite (bind_raises _ _ _ _ R).
  by destruct (find_glslc_pure h fs) as [-> ->].
Qed.

(** The output directory cannot be created: the program stops there. *)
Lemma main_mkdir_raises h fs glslc e :
  res (find_glslc h fs) = inr (Some glslc) ->
  OS.mkdir (Path OUT_DIR) true fs = Outcome (inl e) fs [Mkdir (Path OUT_DIR)] ->
  main h fs =
    Outcome (inl e) fs
      [Print ("Using glslc: " +:+ str glslc); Mkdir (Path OUT_DIR)].
Proof.
  intros R Hm. unfold main.
  rewrite (bind_pure (find_glslc h) _ fs (Some glslc))
    by by rewrite find_glslc_run, R.
  rewrite (bind_returns (OS.print _) _ fs tt eq_refl). simpl.
  rewrite (bind_raises (OS.mkdir _ _) _ fs e) by by rewrite Hm.
  by rewrite Hm.
Qed.

(** The output directory is there: what remains of [main] is the loop over
    the entries found after its creation, and the closing line. *)
Lemma main_after_mkdir h fs glslc fs1 :
  res (find_glslc h fs) = inr (Some glslc) ->
  OS.mkdir (Path OUT_DIR) true fs
    = Outcome (inr tt) fs1 [Mkdir (Path OUT_DIR)] ->
  main h fs =
    Outcome
      (res ((for_each (listing fs1) (loop_body h glslc);;
             OS.print "Done.") fs1))
      (fs_after ((for_each (listing fs1) (loop_body h glslc);;
                  OS.print "Done.") fs1))
      ([Print ("Using glslc: " +:+ str glslc); Mkdir (Path OUT_DIR)]
         ++ log ((for_each (listing fs1) (loop_body h glslc);;
                  OS.print "Done.") fs1)).
Proof.
  intros R Hm. unfold main.
  rewrite (bind_pure (find_glslc h) _ fs (Some glslc))
    by by rewrite find_glslc_run, R.
  rewrite (bind_returns (OS.print _) _ fs tt eq_refl).
  cbn [res fs_after log OS.print].
  rewrite (bind_returns (OS.mkdir _ _) _ fs tt) by by rewrite Hm.
  rewrite Hm. cbn [res fs_after log].
  rewrite (bind_pure (OS.glob_star _) _ fs1 _ (glob_star_run fs1)).
  done.
Qed.

Lemma invocations_app t1 t2 :
  invocations (t1 ++ t2) = invocations t1 ++ invocations t2.
Proof. apply omap_app. Qed.

Lemma mkdirs_app t1 t2 : mkdirs (t1 ++ t2) = mkdirs t1 ++ mkdirs t2.
Proof. apply omap_app. Qed.

(** What the report of a batch contains. *)
Lemma reports_invocations h glslc shaders fs t fs' :
  reports h glslc shaders fs t fs' ->
  invocations t = command glslc <$> filter (λ s, is_shader s) shaders.
Proof.
  induction 1 as [|shader rest fs t fs' S _ IH|shader rest fs err fs1 t fs' S P _ IH
                 |shader rest fs rc err fs1 t fs' S P N _ IH]; [done| | |].
  - rewrite filter_cons_False; [done|]. rewrite S. by intros [].
  - rewrite filter_cons_True by by rewrite S.
    cbn. by rewrite <- IH.
  - rewrite filter_cons_True by by rewrite S.
    cbn. by rewrite <- IH.
Qed.

Lemma reports_keep_dir h glslc shaders fs t fs' :
  keeps_output_dir h ->
  reports h glslc shaders fs t fs' ->
  OS.is_dir_in fs (Path OUT_DIR) = true ->
  OS.is_dir_in fs' (Path OUT_DIR) = true.
Proof.
  intros K. induction 1 as [|shader rest fs t fs' S _ IH
                            |shader rest fs err fs1 t fs' S P _ IH
                            |shader rest fs rc err fs1 t fs' S P N _ IH];
    intros D; [done|by apply IH| |]; apply IH;
    specialize (K (command glslc shader) fs D); by rewrite P in K.
Qed.

Lemma batch_events_mkdirs glslc shaders t :
  Forall (batch_event glslc shaders) t -> mkdirs t = [].
Proof.
  induction 1 as [|ev t Hev _ IH]; [done|].
  destruct ev; simpl in *; done.
Qed.

Lemma batch_events_invocations glslc shaders t cmd :
  Forall (batch_event glslc shaders) t ->
  cmd ∈ invocations t ->
  ∃ shader, shader ∈ shaders ∧ is_shader shader = true
            ∧ cmd = command glslc shader.
Proof.
  induction 1 as [|ev t Hev _ IH]; intros Hin.
  - by apply elem_of_nil in Hin.
  - destruct ev as [| |cmd'|]; simpl in *; try by apply IH.
    apply elem_of_cons in Hin as [->|Hin]; [done|by apply IH].
Qed.

Lemma entries_no_dir fs :
  OS.is_dir_in fs (Path OUT_DIR) = false -> entries fs = [].
Proof.
  unfold OS.is_dir_in, entries. change (Path SHADER_DIR) with (Path OUT_DIR).
  by destruct (fs !! Path OUT_DIR) as [[|es]|].
Qed.

Lemma listing_no_dir fs :
  OS.is_dir_in fs (Path OUT_DIR) = false -> listing fs = [].
Proof. intros H. unfold listing. by rewrite entries_no_dir. Qed.

(** A run in which the locator has found the compiler: the output directory
    cannot be created and the run ends there; or it can, and the run ends
    with the batch, normally or in the traceback of a launch. *)
Lemma run_script_found h fs glslc :
  res (find_glslc h fs) = inr (Some glslc) ->
  (∃ fs1,
      OS.mkdir (Path OUT_DIR) true fs
        = Outcome (inr tt) fs1 [Mkdir (Path OUT_DIR)]
      ∧ listing fs1 = listing fs
      ∧ Forall (batch_event glslc (listing fs1))
          (log (for_each (listing fs1) (loop_body h glslc) fs1))
      ∧ ((res (for_each (listing fs1) (loop_body h glslc) fs1) = inr tt
          ∧ run_script h fs =
              Finished 0
                ([Print ("Using glslc: " +:+ str glslc);
                  Mkdir (Path OUT_DIR)]
                   ++ log (for_each (listing fs1) (loop_body h glslc) fs1)
                   ++ [Print "Done."])
                (fs_after (for_each (listing fs1) (loop_body h glslc) fs1)))
         ∨ (∃ e,
              res (for_each (listing fs1) (loop_body h glslc) fs1) = inl e
              ∧ run_script h fs =
                  Finished 1
                    ([Print ("Using glslc: " +:+ str glslc);
                      Mkdir (Path OUT_DIR)]
                       ++ log (for_each (listing fs1) (loop_body h glslc) fs1)
                       ++ [Traceback e])
                    (fs_after
                       (for_each (listing fs1) (loop_body h glslc) fs1)))))
  ∨ (∃ e,
      OS.mkdir (Path OUT_DIR) true fs
        = Outcome (inl e) fs [Mkdir (Path OUT_DIR)]
      ∧ listing fs = []
      ∧ run_script h fs =
          Finished 1
            [Print ("Using glslc: " +:+ str glslc); Mkdir (Path OUT_DIR);
             Traceback e] fs).
Proof.
  intros R.
  assert (∀ fs1,
    OS.mkdir (Path OUT_DIR) true fs
      = Outcome (inr tt) fs1 [Mkdir (Path OUT_DIR)] ->
    (res (for_each (listing fs1) (loop_body h glslc) fs1) = inr tt
     ∧ run_script h fs =
         Finished 0
           ([Print ("Using glslc: " +:+ str glslc); Mkdir (Path OUT_DIR)]
              ++ log (for_each (listing fs1) (loop_body h glslc) fs1)
              ++ [Print "Done."])
           (fs_after (for_each (listing fs1) (loop_body h glslc) fs1)))
    ∨ (∃ e,
         res (for_each (listing fs1) (loop_body h glslc) fs1) = inl e
         ∧ run_script h fs =
             Finished 1
               ([Print ("Using glslc: " +:+ str glslc); Mkdir (Path OUT_DIR)]
                  ++ log (for_each (listing fs1) (loop_body h glslc) fs1)
                  ++ [Traceback e])
               (fs_after (for_each (listing fs1) (loop_body h glslc) fs1))))
    as Hrun.
  { intros fs1 E. unfold run_script.
    rewrite (main_after_mkdir h fs glslc fs1 R E). cbn [res fs_after log].
    destruct (for_each_sound h glslc (listing fs1) fs1) as [_ He].
    destruct (res (for_each (listing fs1) (loop_body h glslc) fs1))
      as [e|[]] eqn:Rb.
    - right. exists e. split; [done|].
      rewrite (bind_raises _ _ _ _ Rb). cbn [res fs_after log].
      specialize (He e eq_refl).
      destruct e; cbn [app]; rewrite <- ?app_assoc; try done.
      by destruct (He code).
    - left. split; [done|].
      rewrite (bind_returns _ _ _ _ Rb). cbn [res fs_after log OS.print].
      done. }
  destruct (mkdir_cases (Path OUT_DIR) fs)
    as [[D E]|[[N (es & Hp & E)]|[D (e & He & E)]]].
  - left. exists fs. split_and!; [done|done| |by apply Hrun].
    apply for_each_sound.
  - left. eexists. split_and!; [exact E| | |by apply Hrun].
    + rewrite (listing_no_dir fs) by (unfold OS.is_dir_in; by rewrite N).
      unfold listing, entries. change (Path SHADER_DIR) with (Path OUT_DIR).
      by rewrite lookup_insert_eq.
    + apply for_each_sound.
  - right. exists e. split_and!; [done|by apply listing_no_dir|].
    unfold run_script. rewrite (main_mkdir_raises h fs glslc e R E). simpl.
    destruct e; try done. by destruct (He code).
Qed.

(** The same run when the compiler answers: the batch is reported in full. *)
Lemma run_script_answers h fs glslc :
  res (find_glslc h fs) = inr (Some glslc) ->
  compiler_answers h ->
  (∃ fs1 t fs',
      OS.mkdir (Path OUT_DIR) true fs
        = Outcome (inr tt) fs1 [Mkdir (Path OUT_DIR)]
      ∧ listing fs1 = listing fs
      ∧ reports h glslc (listing fs1) fs1 t fs'
      ∧ run_script h fs =
          Finished 0
            ([Print ("Using glslc: " +:+ str glslc); Mkdir (Path OUT_DIR)]
               ++ t ++ [Print "Done."]) fs')
  ∨ (∃ e,
      OS.mkdir (Path OUT_DIR) true fs
        = Outcome (inl e) fs [Mkdir (Path OUT_DIR)]
      ∧ listing fs = []
      ∧ run_script h fs =
          Finished 1
            [Print ("Using glslc: " +:+ str glslc); Mkdir (Path OUT_DIR);
             Traceback e] fs).
Proof.
  intros R A.
  destruct (run_script_found h fs glslc R)
    as [(fs1 & E & HL & _ & Hb)|(e & E & HL & Hrun)]; [|right; eauto].
  left. destruct (for_each_reports h glslc (listing fs1) fs1 A)
    as (t & fs' & Hl & Hr).
  exists fs1, t, fs'. split_and!; [done..|].
  destruct Hb as [[_ ->]|(e & Hb & _)]; [by rewrite Hl|].
  by rewrite Hl in Hb.
Qed.

Lemma run_script_not_found h fs :
  res (find_glslc h fs) = inr None ->
  run_script h fs = Finished 1 not_found_lines fs.
Proof. intros R. unfold run_script. by rewrite (main_not_found h fs R). Qed.

Lemma run_script_locator_raises h fs e :
  res (find_glslc h fs) = inl e -> invocations (trace (run_script h fs)) = [].
Proof.
  intros R. unfold run_script. rewrite (main_locator_raises h fs e R). simpl.
  by destruct e.
Qed.

Lemma picky_answers : compiler_answers Samples.on_path.
Proof.
  intros cmd fs. unfold Samples.on_path, Samples.picky. simpl.
  destruct cmd as [|? [|input ?]]; [by eexists _, _..|].
  destruct (Text.endswith input ".frag"); by eexists _, _.
Qed.

Lemma run_script_invocations h fs glslc :
  res (find_glslc h fs) = inr (Some glslc) ->
  compiler_answers h ->
  invocations (trace (run_script h fs))
    = command glslc <$> filter (λ s, is_shader s) (listing fs).
Proof.
  intros R A.
  destruct (run_script_answers h fs glslc R A)
    as [(fs1 & t & fs' & E & HL & Hr & ->)|(e & E & HL & ->)].
  - cbn [trace]. rewrite !invocations_app.
    rewrite (reports_invocations _ _ _ _ _ _ Hr), HL.
    cbn. by rewrite app_nil_r.
  - by rewrite HL.
Qed.

Lemma for_each_keep_dir h glslc shaders fs :
  keeps_output_dir h ->
  OS.is_dir_in fs (Path OUT_DIR) = true ->
  OS.is_dir_in (fs_after (for_each shaders (loop_body h glslc) fs))
    (Path OUT_DIR) = true.
Proof.
  intros K. revert fs. induction shaders as [|shader rest IH]; intros fs D;
    [done|].
  assert (OS.is_dir_in (fs_after (loop_body h glslc shader fs)) (Path OUT_DIR)
          = true) as D1.
  { destruct (is_shader shader) eqn:S.
    - rewrite (loop_body_compile h glslc shader fs S).
      specialize (K (command glslc shader) fs D).
      by destruct (process h (command glslc shader) fs) as [[rc err| |e] fs1].
    - by rewrite (loop_body_skip h glslc shader fs S). }
  simpl. destruct (res (loop_body h glslc shader fs)) as [e|[]] eqn:R.
  - by rewrite (bind_raises _ _ _ _ R).
  - rewrite (bind_returns _ _ _ _ R). simpl. by apply IH.
Qed.

(** ** Letters and suffixes *)







Lemma string_length_app (a b : string) :
  String.length (a +:+ b) = String.length a + String.length b.
Proof. induction a as [|c a IH]; simpl; [done|by rewrite IH]. Qed.

Lemma substring_all (s : string) :
  String.substring 0 (String.length s) s = s.
Proof. induction s as [|c s IH]; simpl; [done|by rewrite IH]. Qed.

Lemma substring_app_tail (a b : string) :
  String.substring (String.length a) (String.length b) (a +:+ b) = b.
Proof. induction a as [|c a IH]; simpl; [apply substring_all|done]. Qed.

Lemma rfind_app_found c (a b : string) i :
  Text.rfind c b = Some i ->
  Text.rfind c (a +:+ b) = Some (String.length a + i).
Proof.
  intros H. induction a as [|x a IH]; simpl; [done|]. by rewrite IH.
Qed.

Lemma lower_char_dot (c : ascii) :
  Ascii.eqb (Text.lower_char c) "."%char = Ascii.eqb c "."%char.
Proof. by destruct c as [[] [] [] [] [] [] [] []]. Qed.

Lemma rfind_dot_lower (s : string) :
  Text.rfind "."%char (Text.lower s) = Text.rfind "."%char s.
Proof.
  induction s as [|c s IH]; simpl; [done|].
  by rewrite IH, lower_char_dot.
Qed.

Lemma length_lower (s : string) :
  String.length (Text.lower s) = String.length s.
Proof. induction s as [|c s IH]; simpl; [done|by rewrite IH]. Qed.

Lemma shader_ext_is_extension (x : string) :
  Text.lower x ∈ shader_exts -> is_extension x.
Proof.
  intros H. unfold is_extension.
  rewrite <- rfind_dot_lower, <- length_lower.
  unfold shader_exts in H.
  repeat (apply elem_of_cons in H as [->|H]; [split; [reflexivity|simpl; lia]|]).
  by apply elem_of_nil in H.
Qed.

(** The suffix of [stem ++ x] for an extension [x]: [x] itself, unless the
    stem is empty. *)
Lemma suffix_of_app (stem x : string) :
  is_extension x ->
  suffix_of (stem +:+ x) = if String.eqb stem "" then "" else x.
Proof.
  intros [Hr Hl]. unfold suffix_of.
  rewrite (rfind_app_found _ stem x 0 Hr), string_length_app, Nat.add_0_r.
  destruct stem as [|c stem]; [done|].
  change (String.eqb (String c stem) "") with false.
  set (n := String.length (String c stem)).
  assert (0 < n) as Hn by (unfold n; simpl; lia).
  replace (n + String.length x - n) with (String.length x) by lia.
  rewrite (proj2 (Nat.ltb_lt 0 n)) by done.
  rewrite (proj2 (Nat.ltb_lt n (n + String.length x - 1))) by lia.
  simpl. apply substring_app_tail.
Qed.

Lemma is_shader_joinpath dir n :
  is_shader (dir // n)
  = bool_decide (Text.lower (suffix_of n) ∈ shader_exts).
Proof. unfold is_shader, suffix. by rewrite name_joinpath. Qed.

(** With a non-empty stem in front, a recognized extension in any case
    makes a shader. *)
Lemma is_shader_stem_ext dir stem x :
  stem ≠ "" -> Text.lower x ∈ shader_exts ->
  is_shader (dir // (stem +:+ x)) = true.
Proof.
  intros Hs Hx. rewrite is_shader_joinpath.
  rewrite (suffix_of_app stem x (shader_ext_is_extension x Hx)).
  destruct (String.eqb_spec stem ""); [done|].
  by apply bool_decide_eq_true_2.
Qed.

(** An output file is never a shader. *)
Lemma is_shader_output dir n : is_shader (dir // (n +:+ ".spv")) = false.
Proof.
  rewrite is_shader_joinpath, (suffix_of_app n ".spv")
    by (split; [reflexivity|simpl; lia]).
  by destruct (String.eqb n "").
Qed.

Lemma filter_none {A} (P : A -> Prop) `{∀ x, Decision (P x)} (l : list A) :
  Forall (λ x, ¬ P x) l -> filter P l = [].
Proof.
  induction 1 as [|x l Hx _ IH]; [done|]. by rewrite filter_cons_False.
Qed.

(** Entries that are not selected can be added without changing what is
    selected. *)
Lemma filter_ignores {A} (P : A -> Prop) `{∀ x, Decision (P x)}
    (es outs l : list A) :
  Forall (λ x, ¬ P x) outs -> l ≡ₚ es ++ outs -> filter P l ≡ₚ filter P es.
Proof.
  intros Ho Hl. rewrite Hl, filter_app, (filter_none P outs Ho).
  by rewrite app_nil_r.
Qed.

(** ** The stated properties *)

(** C2 (the code falls short).  With nothing on the search path, no
    [VULKAN_SDK] and a regular file at [C:/VulkanSDK], no search method has a
    hit, yet the locator does not return [None]: the guard
    [default_sdk_dir.exists()] lets a regular file through and listing it
    raises [NotADirectoryError].  The program prints the traceback instead of
    the diagnostic; its status is 1 and nothing else is touched. *)
Theorem find_glslc_crash_at_file_root :
  Locator.locate Samples.bare Samples.root_is_file = None
  ∧ find_glslc Samples.bare Samples.root_is_file
    = Outcome (inl NotADirectoryError) Samples.root_is_file []
  ∧ run_script Samples.bare Samples.root_is_file
    = Finished 1 [Traceback NotADirectoryError] Samples.root_is_file
  ∧ ¬ not_found_is_reported Samples.bare Samples.root_is_file.
Proof.
  split_and!; [vm_compute; reflexivity..|].
  intros H. destruct H as [H _]; [vm_compute; reflexivity|].
  vm_compute in H. discriminate.
Qed.

(** C3 (amended). Whenever the locator succeeds, the output directory can
    be created and the compiler answers every launch, the program goes
    through the whole batch -- every shader of the input directory is handed
    to the compiler and [Done.] is printed last -- and exits with status 0,
    whatever exit codes the compiler returns. *)
Theorem batch_exit_0 (h : Host) (fs : FS) (glslc : path) :
  res (find_glslc h fs) = inr (Some glslc) ->
  res (OS.mkdir (Path OUT_DIR) true fs) = inr tt ->
  compiler_answers h ->
  exit_status (run_script h fs) = 0%Z
  ∧ invocations (trace (run_script h fs))
    = command glslc <$> filter (λ s, is_shader s) (listing fs)
  ∧ last (trace (run_script h fs)) = Some (Print "Done.").
Proof.
  intros R Hm A.
  destruct (run_script_answers h fs glslc R A)
    as [(fs1 & t & fs' & E & HL & Hr & ->)|(e & E & _)];
    [|by rewrite E in Hm].
  cbn [exit_status trace]. split_and!; [done| |].
  - rewrite !invocations_app, (reports_invocations _ _ _ _ _ _ Hr), HL.
    cbn. by rewrite app_nil_r.
  - rewrite app_assoc. apply last_snoc.
Qed.

Lemma batch_exit_0_witness :
  exit_status
    (run_script Samples.on_path (Samples.shaders_fs ["a.vert"; "b.frag"]))
  = 0%Z
  ∧ printed
      (trace
         (run_script Samples.on_path (Samples.shaders_fs ["a.vert"; "b.frag"])))
    = ["Using glslc: C:/tools/glslc.exe"; "[OK] a.vert -> a.vert.spv";
       "[FAILED] ../shaders/b.frag"; "b.frag: error"; "Done."].
Proof.
  split; [|vm_compute; reflexivity].
  apply (batch_exit_0 Samples.on_path (Samples.shaders_fs ["a.vert"; "b.frag"])
           ["C:"; "tools"; "glslc.exe"]);
    [vm_compute; reflexivity..|exact picky_answers].
Defined.

(** C3 as worded fails where the name of the output directory is taken by a
    regular file: the locator succeeds, creating the directory raises, and
    the program exits with 1. *)
Lemma found_means_exit_0_fails :
  ¬ found_means_exit_0 Samples.on_path Samples.shaders_is_file.
Proof.
  intros H. specialize (H ["C:"; "tools"; "glslc.exe"]).
  vm_compute in H. specialize (H eq_refl). discriminate.
Qed.



(** C5. Every subprocess the program launches has the command line
    [glslc input -o output]: after the located executable come exactly three
    arguments, the path of a selected entry of the input directory, the
    literal [-o], and the output directory joined with the entry's file name
    followed by [.spv]. *)
Theorem invocation_arguments (h : Host) (fs : FS) (cmd : list string) :
  cmd ∈ invocations (trace (run_script h fs)) ->
  ∃ glslc shader,
    res (find_glslc h fs) = inr (Some glslc)
    ∧ shader ∈ listing fs
    ∧ is_shader shader = true
    ∧ cmd = [str glslc; str shader; "-o";
             str (Path OUT_DIR // (name shader +:+ ".spv"))].
Proof.
  intros Hc. destruct (res (find_glslc h fs)) as [e|[glslc|]] eqn:R.
  - rewrite (run_script_locator_raises h fs e R) in Hc.
    by apply elem_of_nil in Hc.
  - exists glslc.
    assert (∀ fs1 tail,
      listing fs1 = listing fs ->
      Forall (batch_event glslc (listing fs1))
        (log (for_each (listing fs1) (loop_body h glslc) fs1)) ->
      invocations tail = [] ->
      cmd ∈ invocations
              ([Print ("Using glslc: " +:+ str glslc); Mkdir (Path OUT_DIR)]
                 ++ log (for_each (listing fs1) (loop_body h glslc) fs1)
                 ++ tail) ->
      ∃ shader, inr (Some glslc) = inr (B:=option path) (A:=exn) (Some glslc)
                ∧ shader ∈ listing fs ∧ is_shader shader = true
                ∧ cmd = command glslc shader) as Hlog.
    { intros fs1 tail HL Hf Ht Hin.
      rewrite !invocations_app, Ht, app_nil_r in Hin. cbn in Hin.
      destruct (batch_events_invocations _ _ _ _ Hf Hin) as (s & Hs & S & ->).
      exists s. rewrite <- HL. done. }
    destruct (run_script_found h fs glslc R)
      as [(fs1 & E & HL & Hf & [[_ Hrun]|(e & _ & Hrun)])|(e & E & _ & Hrun)];
      rewrite Hrun in Hc; cbn [trace] in Hc.
    + exact (Hlog fs1 [Print "Done."] HL Hf eq_refl Hc).
    + exact (Hlog fs1 [Traceback e] HL Hf eq_refl Hc).
    + by apply elem_of_nil in Hc.
  - rewrite (run_script_not_found h fs R) in Hc. simpl in Hc.
    by apply elem_of_nil in Hc.
Qed.

Lemma invocation_arguments_witness :
  ∃ glslc shader,
    ["C:/tools/glslc.exe"; "../shaders/a.vert"; "-o"; "../shaders/a.vert.spv"]
    = [str glslc; str shader; "-o";
       str (Path OUT_DIR // (name shader +:+ ".spv"))].
Proof.
  destruct (invocation_arguments Samples.on_path
              (Samples.shaders_fs ["a.vert"; "c.txt"])
              ["C:/tools/glslc.exe"; "../shaders/a.vert"; "-o";
               "../shaders/a.vert.spv"])
    as (glslc & shader & _ & _ & _ & E).
  - vm_compute. apply list_elem_of_here.
  - exists glslc, shader. exact E.
Defined.

(** C6 (amended). A compilation whose launch returns prints
    [[OK] <input file name> -> <output file name>] when the exit code is 0,
    and [[FAILED] <input path>] followed by the captured error text when it
    is not, and returns normally in both cases.  In a run that reaches the
    batch and whose compiler answers every launch, the console shows the
    report of every entry in turn, failed or not, and [Done.] once at the
    very end. *)
Theorem status_lines (h : Host) (fs : FS) (glslc : path) :
  res (find_glslc h fs) = inr (Some glslc) ->
  res (OS.mkdir (Path OUT_DIR) true fs) = inr tt ->
  compiler_answers h ->
  (∀ input output fs0 rc err fs1,
     process h [str glslc; str input; "-o"; str output] fs0
     = (Exited rc err, fs1) ->
     compile_shader h glslc input output fs0 =
       Outcome (inr tt) fs1
         (Run [str glslc; str input; "-o"; str output] ::
            if (rc =? 0)%Z
            then [Print ("[OK] " +:+ name input +:+ " -> " +:+ name output)]
            else [Print ("[FAILED] " +:+ str input); Print err]))
  ∧ ∃ t fs',
      reports h glslc (listing fs)
        (fs_after (OS.mkdir (Path OUT_DIR) true fs)) t fs'
      ∧ trace (run_script h fs) =
          [Print ("Using glslc: " +:+ str glslc); Mkdir (Path OUT_DIR)]
            ++ t ++ [Print "Done."].
Proof.
  intros R Hm A. split.
  - intros input output fs0 rc err fs1 P.
    rewrite compile_shader_run. cbv zeta. by rewrite P.
  - destruct (run_script_answers h fs glslc R A)
      as [(fs1 & t & fs' & E & HL & Hr & ->)|(e & E & _)];
      [|by rewrite E in Hm].
    exists t, fs'. rewrite E. cbn [fs_after trace]. by rewrite <- HL.
Qed.

Lemma status_lines_witness :
  ∃ t,
    trace (run_script Samples.on_path (Samples.shaders_fs ["b.frag"; "a.vert"]))
    = [Print "Using glslc: C:/tools/glslc.exe"; Mkdir [".."; "shaders"]]
        ++ t ++ [Print "Done."]
    ∧ ∃ fs',
        reports Samples.on_path ["C:"; "tools"; "glslc.exe"]
          (listing (Samples.shaders_fs ["b.frag"; "a.vert"]))
          (Samples.shaders_fs ["b.frag"; "a.vert"]) t fs'.
Proof.
  destruct (status_lines Samples.on_path
              (Samples.shaders_fs ["b.frag"; "a.vert"])
              ["C:"; "tools"; "glslc.exe"])
    as (_ & t & fs' & Hr & E);
    [vm_compute; reflexivity..|exact picky_answers|].
  exists t. split; [exact E|]. exists fs'. exact Hr.
Defined.

(** C6 as worded fails for the [FAILED] line: it shows the input path as it
    was handed to the compiler, not the bare file name. *)
Lemma failed_line_has_name_fails :
  ¬ failed_line_has_name Samples.on_path ["C:"; "tools"; "glslc.exe"]
      [".."; "shaders"; "b.frag"] [".."; "shaders"; "b.frag.spv"]
      (Samples.shaders_fs ["b.frag"]).
Proof.
  intros H.
  specialize (H 1%Z "b.frag: error" (Samples.shaders_fs ["b.frag"])).
  vm_compute in H. specialize (H eq_refl).
  assert ((1 ≠ 0)%Z) as N by done. specialize (H N). discriminate.
Qed.

(** C7. The output directory is created by exactly one [mkdir] call, made
    before anything is compiled.  On a directory that is already there the
    call succeeds and changes nothing, so creating twice is the same as
    creating once; and after a completed run whose compiler does not remove
    the directory, the creation step of the next run leaves the file system
    as it found it. *)
Theorem output_dir_created_once (h : Host) (fs : FS) (glslc : path) :
  res (find_glslc h fs) = inr (Some glslc) ->
  (∃ rest,
     trace (run_script h fs) =
       Print ("Using glslc: " +:+ str glslc) :: Mkdir (Path OUT_DIR) :: rest
     ∧ mkdirs rest = [])
  ∧ (∀ fs0, OS.is_dir_in fs0 (Path OUT_DIR) = true ->
            OS.mkdir (Path OUT_DIR) true fs0
            = Outcome (inr tt) fs0 [Mkdir (Path OUT_DIR)])
  ∧ (∀ fs0 fs1 l,
       OS.mkdir (Path OUT_DIR) true fs0 = Outcome (inr tt) fs1 l ->
       OS.mkdir (Path OUT_DIR) true fs1
       = Outcome (inr tt) fs1 [Mkdir (Path OUT_DIR)])
  ∧ (keeps_output_dir h ->
     exit_status (run_script h fs) = 0%Z ->
     OS.mkdir (Path OUT_DIR) true (final_fs (run_script h fs))
     = Outcome (inr tt) (final_fs (run_script h fs)) [Mkdir (Path OUT_DIR)]).
Proof.
  intros R. split_and!.
  - destruct (run_script_found h fs glslc R)
      as [(fs1 & E & HL & Hf & [[_ ->]|(e & _ & ->)])|(e & E & HL & ->)].
    + eexists. split; [done|].
      by rewrite mkdirs_app, (batch_events_mkdirs _ _ _ Hf).
    + eexists. split; [done|].
      by rewrite mkdirs_app, (batch_events_mkdirs _ _ _ Hf).
    + by exists [Traceback e].
  - intros fs0. apply mkdir_existing.
  - intros fs0 fs1 l H. apply mkdir_existing. by eapply mkdir_makes_dir.
  - intros K Hx. apply mkdir_existing.
    destruct (run_script_found h fs glslc R)
      as [(fs1 & E & HL & Hf & [[_ Hrun]|(e & _ & Hrun)])|(e & E & HL & Hrun)];
      rewrite Hrun in Hx |- *; [|done..].
    cbn [final_fs]. apply for_each_keep_dir; [done|].
    by eapply mkdir_makes_dir.
Qed.

Lemma output_dir_created_once_witness :
  mkdirs
    (trace (run_script Samples.on_path
              {[ [".."] := Dir [] ]}))
  = [[".."; "shaders"]].
Proof.
  destruct (output_dir_created_once Samples.on_path {[ [".."] := Dir [] ]}
              ["C:"; "tools"; "glslc.exe"])
    as ((rest & -> & Hr) & _); [vm_compute; reflexivity|].
  unfold mkdirs in *. cbn. by rewrite Hr.
Defined.

(** C9. The input directory and the output directory are the same path, so
    once the output directory has been created the input directory is a
    directory when its entries are read: listing it cannot fail, and what
    remains of [main] is the loop over the entries found in the file system
    that the creation left; with a compiler that answers, that loop is the
    reported batch and [main] returns. *)
Theorem input_dir_exists_when_listed (h : Host) (fs fs1 : FS) (glslc : path)
    (l : list event) :
  res (find_glslc h fs) = inr (Some glslc) ->
  OS.mkdir (Path OUT_DIR) true fs = Outcome (inr tt) fs1 l ->
  SHADER_DIR = OUT_DIR
  ∧ OS.is_dir_in fs1 (Path SHADER_DIR) = true
  ∧ (∃ es, OS.listdir fs1 (Path SHADER_DIR) = inr es
       ∧ OS.glob_star (Path SHADER_DIR) fs1
         = Outcome (inr (joinpath (Path SHADER_DIR) <$> es)) fs1 [])
  ∧ main h fs =
      Outcome
        (res ((for_each (listing fs1) (loop_body h glslc);;
               OS.print "Done.") fs1))
        (fs_after ((for_each (listing fs1) (loop_body h glslc);;
                    OS.print "Done.") fs1))
        ([Print ("Using glslc: " +:+ str glslc); Mkdir (Path OUT_DIR)]
           ++ log ((for_each (listing fs1) (loop_body h glslc);;
                    OS.print "Done.") fs1))
  ∧ (compiler_answers h ->
     ∃ t fs',
       reports h glslc (listing fs1) fs1 t fs'
       ∧ main h fs =
           Outcome (inr tt) fs'
             ([Print ("Using glslc: " +:+ str glslc); Mkdir (Path OUT_DIR)]
                ++ t ++ [Print "Done."])).
Proof.
  intros R Hm. pose proof (mkdir_makes_dir _ _ _ _ Hm) as D.
  assert (OS.mkdir (Path OUT_DIR) true fs
          = Outcome (inr tt) fs1 [Mkdir (Path OUT_DIR)]) as Hm'.
  { pose proof (mkdir_log (Path OUT_DIR) true fs) as Hl.
    rewrite Hm in Hl. simpl in Hl. by subst l. }
  pose proof (main_after_mkdir h fs glslc fs1 R Hm') as Hmain.
  split_and!; [done|done| |done|].
  - unfold OS.is_dir_in in D. unfold OS.listdir, OS.glob_star.
    change (Path SHADER_DIR) with (Path OUT_DIR).
    destruct (fs1 !! Path OUT_DIR) as [[|es]|]; try done. by exists es.
  - intros A.
    destruct (for_each_reports h glslc (listing fs1) fs1 A)
      as (t & fs' & Hl & Hr).
    exists t, fs'. split; [done|]. rewrite Hmain.
    rewrite (bind_returns (for_each _ _) _ fs1 tt) by by rewrite Hl.
    by rewrite Hl.
Qed.

Lemma input_dir_exists_when_listed_witness :
  OS.is_dir_in
    (fs_after (OS.mkdir (Path OUT_DIR) true {[ [".."] := Dir [] ]}))
    (Path SHADER_DIR) = true.
Proof.
  eapply (input_dir_exists_when_listed Samples.on_path {[ [".."] := Dir [] ]}
            _ ["C:"; "tools"; "glslc.exe"] [Mkdir [".."; "shaders"]]).
  - vm_compute; reflexivity.
  - vm_compute; reflexivity.
Defined.

(** C8. [.spv] is not a recognized extension, so a file named
    [<name>.spv] is never selected, and adding such files to the directory
    leaves the selected inputs, and with them the compilations of a later
    run whose compiler answers, as they were (up to the order of the
    listing). *)
Theorem outputs_never_selected :
  (".spv" ∉ shader_exts)
  ∧ (∀ dir n, is_shader (dir // (n +:+ ".spv")) = false)
  ∧ (∀ es outs l : list string,
       Forall (λ o, ∃ n, o = n +:+ ".spv") outs ->
       l ≡ₚ es ++ outs ->
       filter (λ n, is_shader (Path SHADER_DIR // n)) l
       ≡ₚ filter (λ n, is_shader (Path SHADER_DIR // n)) es)
  ∧ (∀ h fs fs' glslc outs,
       compiler_answers h ->
       res (find_glslc h fs) = inr (Some glslc) ->
       res (find_glslc h fs') = inr (Some glslc) ->
       Forall (λ o, ∃ n, o = n +:+ ".spv") outs ->
       entries fs' ≡ₚ entries fs ++ outs ->
       invocations (trace (run_script h fs'))
       ≡ₚ invocations (trace (run_script h fs))).
Proof.
  split_and!.
  - apply (bool_decide_unpack (".spv" ∉ shader_exts)). by vm_compute.
  - apply is_shader_output.
  - intros es outs l Ho Hl. eapply filter_ignores; [|done].
    eapply Forall_impl; [exact Ho|]. intros o [n ->].
    rewrite is_shader_output. by intros [].
  - intros h fs fs' glslc outs A R R' Ho He.
    rewrite (run_script_invocations h fs glslc R A).
    rewrite (run_script_invocations h fs' glslc R' A).
    apply fmap_Permutation. unfold listing.
    apply (filter_ignores _ _ (joinpath (Path SHADER_DIR) <$> outs)).
    + apply Forall_fmap. eapply Forall_impl; [exact Ho|]. intros o [n ->].
      simpl. rewrite is_shader_output. by intros [].
    + by rewrite He, fmap_app.
Qed.




(** * Further properties of the script *)

(** ** The locator *)

Lemma parent_joinpath p n : parent (p // n) = p.
Proof. unfold parent, joinpath. apply removelast_last. Qed.

(** X1. Whatever the locator returns is the answer of the three methods
    taken in order: a path it returns is the first hit, and when it returns
    [None] no method has a hit. *)
Theorem find_glslc_returns_locate (h : Host) (fs : FS) (o : option path) :
  res (find_glslc h fs) = inr o -> Locator.locate h fs = o.
Proof.
  rewrite find_glslc_res. unfold Locator.locate. simpl.
  destruct (Locator.by_search_path h) as [p1|]; [by intros [= <-]|].
  destruct (Locator.by_sdk_variable h fs) as [p2|]; [by intros [= <-]|].
  unfold default_root_outcome, Locator.by_default_root.
  destruct (fs !! Locator.default_root) as [[|es]|]; [done| |by intros [= <-]].
  intros [= <-].
  by destruct (find _ _).
Qed.

Lemma find_glslc_returns_locate_witness :
  Locator.locate Samples.bare Samples.two_installs
  = Some ["C:"; "VulkanSDK"; "1.3.0"; "Bin"; "glslc.exe"].
Proof.
  apply (find_glslc_returns_locate Samples.bare Samples.two_installs).
  vm_compute; reflexivity.
Defined.

Lemma candidate_names d :
  name (Locator.candidate d) = "glslc.exe"
  ∧ name (parent (Locator.candidate d)) = "Bin".
Proof.
  unfold Locator.candidate. by rewrite parent_joinpath, !name_joinpath.
Qed.

Lemma default_root_hit fs p :
  default_root_outcome fs = inr (Some p) ->
  is_Some (fs !! p) ∧ ∃ d, p = Locator.candidate d.
Proof.
  unfold default_root_outcome, Locator.by_default_root.
  destruct (fs !! Locator.default_root) as [[|es]|]; try done.
  intros [= R]. apply find_some in R as [Hin E].
  apply bool_decide_eq_true_1 in E. split; [done|].
  apply in_map_iff in Hin as (d & <- & _). by eexists.
Qed.

(** X3. A compiler that the locator did not take from the search path is an
    existing [Bin/glslc.exe]. *)
Theorem found_compiler_exists (h : Host) (fs : FS) (p : path) :
  res (find_glslc h fs) = inr (Some p) ->
  Locator.by_search_path h = None ->
  is_Some (fs !! p) ∧ name p = "glslc.exe" ∧ name (parent p) = "Bin".
Proof.
  intros R H1. rewrite find_glslc_res, H1 in R.
  destruct (Locator.by_sdk_variable h fs) as [p2|] eqn:H2.
  - simplify_eq. unfold Locator.by_sdk_variable in H2.
    destruct (environ h !! "VULKAN_SDK") as [v|]; [|done]. simpl in H2.
    destruct (Text.truthy v); [|done]. simpl in H2.
    destruct (bool_decide (is_Some (fs !! Locator.candidate (Path v))))
      eqn:E; [|done].
    simplify_eq. apply bool_decide_eq_true_1 in E.
    split; [done|apply candidate_names].
  - apply default_root_hit in R as [He [d ->]].
    split; [done|apply candidate_names].
Qed.

Lemma found_compiler_exists_witness :
  is_Some (Samples.two_installs
             !! ["C:"; "VulkanSDK"; "1.3.0"; "Bin"; "glslc.exe"]).
Proof.
  apply (found_compiler_exists Samples.bare Samples.two_installs);
    vm_compute; reflexivity.
Defined.

(** X4. A [VULKAN_SDK] set to the empty string is treated like an unset one:
    the locator answers as it does without the variable, whatever lies in
    [Bin/glslc.exe] below the current directory. *)
Theorem empty_sdk_variable_ignored (h : Host) (fs : FS) :
  environ h !! "VULKAN_SDK" = Some "" ->
  find_glslc h fs = find_glslc (without_sdk_variable h) fs.
Proof.
  intros E. rewrite (find_glslc_run h), (find_glslc_run (without_sdk_variable h)).
  rewrite !find_glslc_res. f_equal.
  unfold Locator.by_sdk_variable, without_sdk_variable. simpl.
  rewrite E, lookup_delete_eq. done.
Qed.

Lemma empty_sdk_variable_ignored_witness :
  find_glslc Samples.empty_variable {[ ["Bin"; "glslc.exe"] := File ]}
  = Outcome (inr None) {[ ["Bin"; "glslc.exe"] := File ]} [].
Proof.
  rewrite (empty_sdk_variable_ignored Samples.empty_variable);
    vm_compute; reflexivity.
Defined.

(** X5. Of the host the locator consults only the search-path answer for
    [glslc.exe] and the variable [VULKAN_SDK]: other variables, other
    executables and the compiler process have no influence on it. *)
Theorem find_glslc_reads_only (h h' : Host) (fs : FS) :
  which h "glslc.exe" = which h' "glslc.exe" ->
  environ h !! "VULKAN_SDK" = environ h' !! "VULKAN_SDK" ->
  find_glslc h fs = find_glslc h' fs.
Proof.
  intros Hw He. rewrite (find_glslc_run h), (find_glslc_run h').
  rewrite !find_glslc_res.
  unfold Locator.by_search_path, Locator.by_sdk_variable.
  by rewrite Hw, He.
Qed.

Lemma find_glslc_reads_only_witness :
  find_glslc Samples.bare Samples.two_installs
  = find_glslc
      {| which := fun n => if String.eqb n "glslc.exe" then None
                           else Some "C:/tools/other.exe";
         environ := {[ "PATH" := "C:/tools" ]};
         process := fun _ fs => (Undecodable, ∅) |}
      Samples.two_installs.
Proof.
  apply find_glslc_reads_only; vm_compute; reflexivity.
Defined.

(** X6. Below the default installation root the entries are tried in
    listing order: entries without [Bin/glslc.exe] -- regular files among
    them -- are passed over, and the first entry that has it is returned,
    whatever comes after it. *)
Theorem first_install_wins (h : Host) (fs : FS) (before after : list string)
    (d : string) :
  Locator.by_search_path h = None ->
  Locator.by_sdk_variable h fs = None ->
  fs !! Locator.default_root = Some (Dir (before ++ d :: after)) ->
  Forall (λ e, fs !! Locator.candidate (Locator.default_root // e) = None)
         before ->
  is_Some (fs !! Locator.candidate (Locator.default_root // d)) ->
  find_glslc h fs
  = Outcome (inr (Some (Locator.candidate (Locator.default_root // d)))) fs [].
Proof.
  intros H1 H2 Hr Hb Hd. rewrite find_glslc_run, find_glslc_res, H1, H2.
  unfold default_root_outcome, Locator.by_default_root. rewrite Hr.
  do 2 f_equal. clear Hr.
  induction Hb as [|e before He _ IH]; simpl.
  - by rewrite bool_decide_eq_true_2.
  - rewrite bool_decide_eq_false_2; [done|]. rewrite He. by intros [? ?].
Qed.

Lemma first_install_wins_witness :
  find_glslc Samples.bare Samples.two_installs
  = Outcome (inr (Some ["C:"; "VulkanSDK"; "1.3.0"; "Bin"; "glslc.exe"]))
      Samples.two_installs [].
Proof.
  apply (first_install_wins Samples.bare Samples.two_installs
           ["notes.txt"; "1.2.0"] [] "1.3.0").
  - vm_compute; reflexivity.
  - vm_compute; reflexivity.
  - vm_compute; reflexivity.
  - repeat constructor.
  - vm_compute. by eexists.
Defined.

(** ** Runs that end in a traceback *)

(** X7. When the search path and [VULKAN_SDK] give nothing and the default
    installation root is a regular file, the program prints nothing but the
    traceback of [NotADirectoryError], exits with status 1 and leaves the
    file system untouched. *)
Theorem root_file_traceback (h : Host) (fs : FS) :
  Locator.by_search_path h = None ->
  Locator.by_sdk_variable h fs = None ->
  fs !! Locator.default_root = Some File ->
  run_script h fs = Finished 1 [Traceback NotADirectoryError] fs.
Proof.
  intros H1 H2 Hr.
  assert (res (find_glslc h fs) = inl NotADirectoryError) as R.
  { rewrite find_glslc_res, H1, H2. unfold default_root_outcome.
    by rewrite Hr. }
  unfold run_script. by rewrite (main_locator_raises h fs _ R).
Qed.

Lemma root_file_traceback_witness :
  run_script Samples.bare Samples.root_is_file
  = Finished 1 [Traceback NotADirectoryError] Samples.root_is_file.
Proof.
  apply root_file_traceback; vm_compute; reflexivity.
Defined.

(** X8. When the compiler is found but creating the output directory
    raises, the program stops right there: after the [Using] line comes the
    traceback of that exception, no compiler is launched, the exit status is
    1 and the file system is unchanged.  This is what happens when the name
    of the directory is taken by a regular file, with [FileExistsError]. *)
Theorem mkdir_failure_run (h : Host) (fs : FS) (glslc : path) (e : exn) :
  res (find_glslc h fs) = inr (Some glslc) ->
  res (OS.mkdir (Path OUT_DIR) true fs) = inl e ->
  run_script h fs
  = Finished 1
      [Print ("Using glslc: " +:+ str glslc); Mkdir (Path OUT_DIR);
       Traceback e] fs
  ∧ (fs !! Path OUT_DIR = Some File -> e = FileExistsError).
Proof.
  intros R Hm. split.
  - destruct (run_script_found h fs glslc R)
      as [(fs1 & E & _)|(e' & E & _ & Hrun)];
      rewrite E in Hm; [done|]. simpl in Hm. by simplify_eq.
  - intros Hf. revert Hm. unfold OS.mkdir, OS.os_mkdir, OS.is_dir_in.
    rewrite Hf. simpl. by intros [= <-].
Qed.

Lemma mkdir_failure_run_witness :
  run_script Samples.on_path Samples.shaders_is_file
  = Finished 1
      [Print "Using glslc: C:/tools/glslc.exe"; Mkdir [".."; "shaders"];
       Traceback FileExistsError] Samples.shaders_is_file.
Proof.
  apply (mkdir_failure_run Samples.on_path Samples.shaders_is_file
           ["C:"; "tools"; "glslc.exe"] FileExistsError);
    vm_compute; reflexivity.
Defined.

Lemma mkdir_ok_listing fs fs1 l :
  OS.mkdir (Path OUT_DIR) true fs = Outcome (inr tt) fs1 l ->
  listing fs1 = listing fs ∧ l = [Mkdir (Path OUT_DIR)].
Proof.
  intros Hm.
  destruct (mkdir_cases (Path OUT_DIR) fs)
    as [[D E]|[[N (es & Hp & E)]|[D (e & He & E)]]];
    rewrite E in Hm; simplify_eq; [done|].
  split; [|done].
  rewrite (listing_no_dir fs) by (unfold OS.is_dir_in; by rewrite N).
  unfold listing, entries. change (Path SHADER_DIR) with (Path OUT_DIR).
  by rewrite lookup_insert_eq.
Qed.

Lemma for_each_skip h glslc skipped shaders fs :
  filter (λ s, is_shader s) skipped = [] ->
  for_each (skipped ++ shaders) (loop_body h glslc) fs
  = for_each shaders (loop_body h glslc) fs.
Proof.
  induction skipped as [|s skipped IH]; intros F; [done|].
  destruct (is_shader s) eqn:S.
  - rewrite filter_cons_True in F; [done|]. by rewrite S.
  - rewrite filter_cons_False in F by (rewrite S; by intros []).
    simpl. rewrite (bind_pure _ _ _ _ (loop_body_skip h glslc s fs S)).
    by apply IH.
Qed.

(** X17. A launch that cannot start the compiler ends the run: the entries
    before the first shader are passed over, [subprocess.run] is called for
    that shader and raises, and the program exits with status 1 after the
    traceback, without a status line, without [Done.], and without trying
    the entries that follow. *)
Theorem launch_failure_aborts (h : Host) (fs : FS) (glslc shader : path)
    (skipped rest : list path) (e : launch_error) :
  res (find_glslc h fs) = inr (Some glslc) ->
  res (OS.mkdir (Path OUT_DIR) true fs) = inr tt ->
  listing fs = skipped ++ shader :: rest ->
  filter (λ s, is_shader s) skipped = [] ->
  is_shader shader = true ->
  (process h (command glslc shader)
     (fs_after (OS.mkdir (Path OUT_DIR) true fs))).1 = NotStarted e ->
  run_script h fs
  = Finished 1
      [Print ("Using glslc: " +:+ str glslc); Mkdir (Path OUT_DIR);
       Run (command glslc shader); Traceback (exn_of_launch e)]
      (fs_after (OS.mkdir (Path OUT_DIR) true fs)).
Proof.
  intros R Hm HL F S P.
  destruct (OS.mkdir (Path OUT_DIR) true fs) as [r fs1 l] eqn:E.
  simpl in Hm, P |- *. subst r.
  destruct (mkdir_ok_listing fs fs1 l E) as [HL1 ->].
  unfold run_script. rewrite (main_after_mkdir h fs glslc fs1 R E).
  rewrite HL1, HL.
  assert (loop_body h glslc shader fs1
          = Outcome (inl (exn_of_launch e)) fs1 [Run (command glslc shader)])
    as Hb.
  { rewrite (loop_body_compile h glslc shader fs1 S).
    destruct (process h (command glslc shader) fs1) as [c fs2].
    simpl in P. by subst c. }
  assert (for_each (skipped ++ shader :: rest) (loop_body h glslc) fs1
          = Outcome (inl (exn_of_launch e)) fs1 [Run (command glslc shader)])
    as Hf.
  { rewrite (for_each_skip h glslc skipped (shader :: rest) fs1 F). simpl.
    rewrite (bind_raises _ _ fs1 (exn_of_launch e)) by by rewrite Hb.
    by rewrite Hb. }
  rewrite (bind_raises (for_each _ _) _ fs1 (exn_of_launch e))
    by by rewrite Hf.
  rewrite Hf. cbn [res fs_after log]. by destruct e.
Qed.

Lemma launch_failure_aborts_witness :
  run_script Samples.glslc_is_dir
    (Samples.glslc_is_dir_fs ["readme.md"; "a.vert"; "b.frag"])
  = Finished 1
      [Print "Using glslc: D:/sdk/Bin/glslc.exe"; Mkdir [".."; "shaders"];
       Run ["D:/sdk/Bin/glslc.exe"; "../shaders/a.vert"; "-o";
            "../shaders/a.vert.spv"];
       Traceback PermissionError]
      (Samples.glslc_is_dir_fs ["readme.md"; "a.vert"; "b.frag"]).
Proof.
  apply (launch_failure_aborts Samples.glslc_is_dir
           (Samples.glslc_is_dir_fs ["readme.md"; "a.vert"; "b.frag"])
           ["D:"; "sdk"; "Bin"; "glslc.exe"] [".."; "shaders"; "a.vert"]
           [[".."; "shaders"; "readme.md"]] [[".."; "shaders"; "b.frag"]]
           CannotExecute); vm_compute; reflexivity.
Defined.

(** ** Exit status and file system of a run *)

Lemma find_glslc_raises h fs e :
  res (find_glslc h fs) = inl e -> e = NotADirectoryError.
Proof.
  rewrite find_glslc_res.
  destruct (Locator.by_search_path h); [done|].
  destruct (Locator.by_sdk_variable h fs); [done|].
  unfold default_root_outcome.
  destruct (fs !! Locator.default_root) as [[|es]|]; [|done..].
  by intros [= <-].
Qed.

(** How a run ends. *)
Lemma run_script_cases h fs :
  (run_script h fs = Finished 1 [Traceback NotADirectoryError] fs
   ∧ res (find_glslc h fs) = inl NotADirectoryError)
  ∨ (run_script h fs = Finished 1 not_found_lines fs
     ∧ res (find_glslc h fs) = inr None)
  ∨ (∃ glslc e,
       res (find_glslc h fs) = inr (Some glslc)
       ∧ res (OS.mkdir (Path OUT_DIR) true fs) = inl e
       ∧ run_script h fs =
           Finished 1
             [Print ("Using glslc: " +:+ str glslc); Mkdir (Path OUT_DIR);
              Traceback e] fs)
  ∨ (∃ glslc t e fs',
       res (find_glslc h fs) = inr (Some glslc)
       ∧ res (OS.mkdir (Path OUT_DIR) true fs) = inr tt
       ∧ run_script h fs =
           Finished 1
             ([Print ("Using glslc: " +:+ str glslc); Mkdir (Path OUT_DIR)]
                ++ t ++ [Traceback e]) fs')
  ∨ (∃ glslc t fs',
       res (find_glslc h fs) = inr (Some glslc)
       ∧ res (OS.mkdir (Path OUT_DIR) true fs) = inr tt
       ∧ run_script h fs =
           Finished 0
             ([Print ("Using glslc: " +:+ str glslc); Mkdir (Path OUT_DIR)]
                ++ t ++ [Print "Done."]) fs').
Proof.
  destruct (res (find_glslc h fs)) as [e|[glslc|]] eqn:R.
  - left. pose proof (find_glslc_raises h fs e R) as ->. split; [|done].
    unfold run_script. by rewrite (main_locator_raises h fs _ R).
  - destruct (run_script_found h fs glslc R)
      as [(fs1 & E & HL & Hf & [[_ Hrun]|(e & _ & Hrun)])|(e & E & _ & Hrun)].
    + do 4 right. eexists glslc, _, _. by rewrite E.
    + do 3 right. left. eexists glslc, _, e, _. by rewrite E.
    + right; right; left. exists glslc, e. by rewrite E.
  - right; left. split; [|done]. by apply run_script_not_found.
Qed.

(** X9. The exit status is 0 or 1, and it is 0 exactly when the last thing
    on the console is [Done.].  A status of 0 means that the locator found a
    compiler and the output directory could be created; with a compiler that
    answers every launch, these two are also enough for it. *)
Theorem exit_status_meaning (h : Host) (fs : FS) :
  (exit_status (run_script h fs) = 0%Z ∨ exit_status (run_script h fs) = 1%Z)
  ∧ (exit_status (run_script h fs) = 0%Z
     ↔ last (trace (run_script h fs)) = Some (Print "Done."))
  ∧ (exit_status (run_script h fs) = 0%Z ->
     (∃ glslc, res (find_glslc h fs) = inr (Some glslc))
     ∧ res (OS.mkdir (Path OUT_DIR) true fs) = inr tt)
  ∧ (compiler_answers h ->
     (∃ glslc, res (find_glslc h fs) = inr (Some glslc)) ->
     res (OS.mkdir (Path OUT_DIR) true fs) = inr tt ->
     exit_status (run_script h fs) = 0%Z).
Proof.
  assert (compiler_answers h ->
     (∃ glslc, res (find_glslc h fs) = inr (Some glslc)) ->
     res (OS.mkdir (Path OUT_DIR) true fs) = inr tt ->
     exit_status (run_script h fs) = 0%Z) as Hyes.
  { intros A [glslc R] Hm.
    destruct (run_script_answers h fs glslc R A)
      as [(fs1 & t & fs' & E & HL & Hr & ->)|(e & E & _)];
      [done|by rewrite E in Hm]. }
  destruct (run_script_cases h fs)
    as [[Hrun R]|[[Hrun R]|[(glslc & e & R & Hm & Hrun)
       |[(glslc & t & e & fs' & R & Hm & Hrun)
        |(glslc & t & fs' & R & Hm & Hrun)]]]];
    rewrite Hrun in Hyes |- *; cbn [exit_status trace] in Hyes |- *.
  - split_and!; [by right|done|done|done].
  - split_and!; [by right|done|done|done].
  - split_and!; [by right|done|done|done].
  - split_and!; [by right| |done|done].
    split; [done|]. rewrite app_assoc, last_snoc. done.
  - split_and!; [by left| | |done].
    + split; [|done]. intros _. rewrite app_assoc. apply last_snoc.
    + intros _. split; [by exists glslc|done].
Qed.

Lemma for_each_inert h glslc shaders fs :
  inert h -> fs_after (for_each shaders (loop_body h glslc) fs) = fs.
Proof.
  intros I. revert fs. induction shaders as [|shader rest IH]; intros fs;
    [done|].
  assert (fs_after (loop_body h glslc shader fs) = fs) as D1.
  { destruct (is_shader shader) eqn:S.
    - rewrite (loop_body_compile h glslc shader fs S).
      specialize (I (command glslc shader) fs).
      by destruct (process h (command glslc shader) fs) as [[rc err| |e] fs1].
    - by rewrite (loop_body_skip h glslc shader fs S). }
  simpl. destruct (res (loop_body h glslc shader fs)) as [e|[]] eqn:R.
  - by rewrite (bind_raises _ _ _ _ R).
  - rewrite (bind_returns _ _ _ _ R). simpl. by rewrite IH.
Qed.

(** X10. By itself the program changes the file system through its one
    [mkdir] call only: with a compiler that writes nothing, the file system
    after a run is the one before it, or the one that creating the output
    directory made of it. *)
Theorem script_only_creates_output_dir (h : Host) (fs : FS) :
  inert h ->
  final_fs (run_script h fs) = fs
  ∨ final_fs (run_script h fs) = fs_after (OS.mkdir (Path OUT_DIR) true fs).
Proof.
  intros I. destruct (res (find_glslc h fs)) as [e|[glslc|]] eqn:R.
  - left. unfold run_script. rewrite (main_locator_raises h fs e R). simpl.
    by destruct e.
  - destruct (run_script_found h fs glslc R)
      as [(fs1 & E & HL & Hf & [[_ ->]|(e & _ & ->)])|(e & E & _ & ->)];
      cbn [final_fs]; rewrite ?for_each_inert by done;
      [right; by rewrite E..|by left].
  - left. by rewrite (run_script_not_found h fs R).
Qed.

Lemma picky_inert : inert Samples.on_path.
Proof.
  intros cmd fs. unfold Samples.on_path, Samples.picky. simpl.
  destruct cmd as [|? [|input ?]]; [done..|].
  by destruct (Text.endswith input ".frag").
Qed.

Lemma script_only_creates_output_dir_witness :
  final_fs (run_script Samples.on_path (Samples.shaders_fs ["a.vert"]))
  = Samples.shaders_fs ["a.vert"].
Proof.
  destruct (script_only_creates_output_dir Samples.on_path
              (Samples.shaders_fs ["a.vert"]) picky_inert) as [E|E].
  - exact E.
  - rewrite E. vm_compute. reflexivity.
Defined.

(** A run with nothing to compile. *)
Lemma run_script_nothing h fs glslc :
  res (find_glslc h fs) = inr (Some glslc) ->
  res (OS.mkdir (Path OUT_DIR) true fs) = inr tt ->
  filter (λ s, is_shader s) (listing fs) = [] ->
  run_script h fs
  = Finished 0
      [Print ("Using glslc: " +:+ str glslc); Mkdir (Path OUT_DIR);
       Print "Done."]
      (fs_after (OS.mkdir (Path OUT_DIR) true fs)).
Proof.
  intros R Hm F.
  destruct (OS.mkdir (Path OUT_DIR) true fs) as [r fs1 l] eqn:E.
  simpl in Hm |- *. subst r.
  destruct (mkdir_ok_listing fs fs1 l E) as [HL1 ->].
  unfold run_script. rewrite (main_after_mkdir h fs glslc fs1 R E).
  rewrite HL1.
  rewrite (bind_pure _ _ fs1 tt (for_each_nothing h glslc (listing fs) fs1 F)).
  done.
Qed.

(** X11. With no shader in the input directory -- it is empty, was just
    created, or holds other files only -- a run that reaches the batch
    launches nothing and prints the [Using] line and [Done.] only; it exits
    with 0 and changes nothing beyond creating the directory. *)
Theorem nothing_to_compile (h : Host) (fs : FS) (glslc : path) :
  res (find_glslc h fs) = inr (Some glslc) ->
  res (OS.mkdir (Path OUT_DIR) true fs) = inr tt ->
  filter (λ s, is_shader s) (listing fs) = [] ->
  run_script h fs
  = Finished 0
      [Print ("Using glslc: " +:+ str glslc); Mkdir (Path OUT_DIR);
       Print "Done."]
      (fs_after (OS.mkdir (Path OUT_DIR) true fs)).
Proof. apply run_script_nothing. Qed.

Lemma nothing_to_compile_witness :
  printed (trace (run_script Samples.on_path
                    (Samples.shaders_fs ["readme.md"; ".vert"; "a.vert.bak"])))
  = ["Using glslc: C:/tools/glslc.exe"; "Done."].
Proof.
  rewrite (nothing_to_compile Samples.on_path
             (Samples.shaders_fs ["readme.md"; ".vert"; "a.vert.bak"])
             ["C:"; "tools"; "glslc.exe"]); vm_compute; reflexivity.
Defined.

(** X16. A missing input directory is no error: as it is also the output
    directory, the program creates it, and when that creation succeeds the
    directory is there and empty, nothing is compiled, and the run ends
    normally with status 0 after the [Using] line and [Done.]. *)
Theorem missing_input_dir_is_created (h : Host) (fs : FS) (glslc : path) :
  res (find_glslc h fs) = inr (Some glslc) ->
  fs !! Path SHADER_DIR = None ->
  res (OS.mkdir (Path OUT_DIR) true fs) = inr tt ->
  run_script h fs
  = Finished 0
      [Print ("Using glslc: " +:+ str glslc); Mkdir (Path SHADER_DIR);
       Print "Done."]
      (fs_after (OS.mkdir (Path OUT_DIR) true fs))
  ∧ OS.is_dir_in (final_fs (run_script h fs)) (Path SHADER_DIR) = true
  ∧ listing (final_fs (run_script h fs)) = [].
Proof.
  intros R N Hm.
  assert (listing fs = []) as HL.
  { unfold listing, entries. by rewrite N. }
  assert (run_script h fs
          = Finished 0
              [Print ("Using glslc: " +:+ str glslc); Mkdir (Path SHADER_DIR);
               Print "Done."]
              (fs_after (OS.mkdir (Path OUT_DIR) true fs))) as Hrun.
  { apply run_script_nothing; [done..|]. by rewrite HL. }
  rewrite Hrun. cbn [final_fs]. split; [done|].
  destruct (OS.mkdir (Path OUT_DIR) true fs) as [r fs1 l] eqn:E.
  simpl in Hm |- *. subst r.
  split; [by eapply mkdir_makes_dir|].
  destruct (mkdir_ok_listing fs fs1 l E) as [-> _]. done.
Qed.

Lemma missing_input_dir_is_created_witness :
  exit_status (run_script Samples.on_path {[ [".."] := Dir ["src"] ]}) = 0%Z
  ∧ OS.is_dir_in
      (final_fs (run_script Samples.on_path {[ [".."] := Dir ["src"] ]}))
      [".."; "shaders"] = true.
Proof.
  destruct (missing_input_dir_is_created Samples.on_path
              {[ [".."] := Dir ["src"] ]} ["C:"; "tools"; "glslc.exe"])
    as (Hrun & Hd & _); [vm_compute; reflexivity..|].
  split; [by rewrite Hrun|exact Hd].
Defined.

(** ** Which names are shaders *)

Lemma lower_char_idemp (c : ascii) :
  Text.lower_char (Text.lower_char c) = Text.lower_char c.
Proof. by destruct c as [[] [] [] [] [] [] [] []]. Qed.

Lemma lower_idemp (s : string) : Text.lower (Text.lower s) = Text.lower s.
Proof.
  induction s as [|c s IH]; simpl; [done|].
  by rewrite IH, lower_char_idemp.
Qed.

Lemma lower_substring (s : string) i k :
  Text.lower (String.substring i k s) = String.substring i k (Text.lower s).
Proof.
  revert i k. induction s as [|c s IH]; intros [|i] [|k]; simpl;
    by rewrite ?IH.
Qed.

Lemma suffix_of_lower (n : string) :
  suffix_of (Text.lower n) = Text.lower (suffix_of n).
Proof.
  unfold suffix_of. rewrite rfind_dot_lower, length_lower.
  destruct (Text.rfind "."%char n) as [i|]; [|done].
  destruct (_ && _); [|done]. by rewrite lower_substring.
Qed.

(** X12. Selection is blind to letter case and to the directory: an entry is
    selected exactly when the entry with the lower-cased name would be. *)
Theorem selection_ignores_case (dir dir' : path) (n : string) :
  is_shader (dir // Text.lower n) = is_shader (dir' // n).
Proof.
  rewrite !is_shader_joinpath. by rewrite suffix_of_lower, lower_idemp.
Qed.

Lemma substring_split (s : string) i :
  i ≤ String.length s ->
  s = String.substring 0 i s +:+ String.substring i (String.length s - i) s.
Proof.
  revert i. induction s as [|c s IH]; intros [|i] Hi; simpl in *;
    [done|lia| |].
  - by rewrite substring_all.
  - f_equal. rewrite (IH i) at 1 by lia. f_equal.
Qed.

Lemma substring_head_nonempty (s : string) i :
  0 < i -> i ≤ String.length s -> String.substring 0 i s ≠ "".
Proof. destruct s, i; simpl; intros; (lia || done). Qed.

(** X13. The names the filter selects are exactly those made of a
    non-empty stem followed by a recognized extension in any letter case. *)
Theorem is_shader_iff (dir : path) (n : string) :
  is_shader (dir // n) = true
  ↔ ∃ stem ext, n = stem +:+ ext ∧ stem ≠ "" ∧ Text.lower ext ∈ shader_exts.
Proof.
  split.
  - rewrite is_shader_joinpath. intros H. apply bool_decide_eq_true_1 in H.
    unfold suffix_of in H.
    destruct (Text.rfind "."%char n) as [i|];
      [|by apply (bool_decide_unpack ("" ∉ shader_exts)) in H].
    destruct ((0 <? i) && (i <? String.length n - 1)) eqn:B;
      [|by apply (bool_decide_unpack ("" ∉ shader_exts)) in H].
    apply andb_true_iff in B as [B1 B2].
    apply Nat.ltb_lt in B1. apply Nat.ltb_lt in B2.
    exists (String.substring 0 i n),
           (String.substring i (String.length n - i) n).
    split_and!; [apply substring_split; lia| |done].
    apply substring_head_nonempty; lia.
  - intros (stem & ext & -> & Hs & Hx). by apply is_shader_stem_ext.
Qed.

Lemma is_shader_iff_witness :
  is_shader ([".."; "shaders"] // "scene.RChit") = true.
Proof.
  apply (is_shader_iff [".."; "shaders"] "scene.RChit").
  exists "scene", ".RChit". split_and!; [reflexivity|discriminate|].
  vm_compute. do 9 apply list_elem_of_further. apply list_elem_of_here.
Defined.

(** X14. Only the last suffix counts.  For a name of the form [n ++ x],
    where [x] is a dot followed by at least one character and no further
    dot, the entry is selected exactly when [n] is not empty and [x] is a
    recognized extension in any letter case, whatever dots [n] has. *)
Theorem last_suffix_decides (dir : path) (n x : string) :
  is_extension x ->
  is_shader (dir // (n +:+ x))
  = negb (String.eqb n "") && bool_decide (Text.lower x ∈ shader_exts).
Proof.
  intros Hx. rewrite is_shader_joinpath, (suffix_of_app n x Hx).
  by destruct (String.eqb n "").
Qed.

Lemma last_suffix_decides_witness :
  is_shader ([".."; "shaders"] // ("a.vert" +:+ ".bak")) = false
  ∧ is_shader ([".."; "shaders"] // ("a.tar" +:+ ".Vert")) = true.
Proof.
  split.
  - rewrite (last_suffix_decides [".."; "shaders"] "a.vert" ".bak");
      [reflexivity|split; [reflexivity|simpl; lia]].
  - rewrite (last_suffix_decides [".."; "shaders"] "a.tar" ".Vert");
      [reflexivity|split; [reflexivity|simpl; lia]].
Defined.

(** ** Output files *)

Lemma string_app_inj_r (a b c : string) : a +:+ c = b +:+ c -> a = b.
Proof.
  revert b. induction a as [|x a IH]; intros [|y b] H; simpl in *.
  - done.
  - apply (f_equal String.length) in H.
    rewrite ?string_length_app in H. simpl in H.
    rewrite ?string_length_app in H. lia.
  - apply (f_equal String.length) in H.
    rewrite ?string_length_app in H. simpl in H.
    rewrite ?string_length_app in H. lia.
  - injection H as -> H. f_equal. by apply IH.
Qed.

Lemma str_in_output_dir (m : string) :
  str (Path OUT_DIR // m) = "../shaders/" +:+ m.
Proof. reflexivity. Qed.

(** X15. Different inputs never share an output file: the output argument
    on the command line determines the name of the entry it was built
    from. *)
Theorem outputs_do_not_collide (glslc : path) (n n' : string) :
  command glslc (Path SHADER_DIR // n) !! 3
  = command glslc (Path SHADER_DIR // n') !! 3 ->
  n = n'.
Proof.
  unfold command. rewrite !name_joinpath, !str_in_output_dir.
  intros [= H]. exact (string_app_inj_r n n' ".spv" H).
Qed.

Lemma outputs_do_not_collide_witness :
  command ["glslc.exe"] (Path SHADER_DIR // "a.vert") !! 3
  = Some "../shaders/a.vert.spv"
  ∧ "a.vert" = "a.vert".
Proof.
  split; [reflexivity|].
  apply (outputs_do_not_collide ["glslc.exe"] "a.vert" "a.vert").
  reflexivity.
Defined.
